(** * voxel-discrete-control: a shallow embedding of [src/index.js]

    The controller is a JavaScript object; the commands it queues, the
    bounds object and the snapshots it emits are plain JS objects, so they
    are modelled as finite maps from property names to JS values.  JS
    numbers are modelled as exact rationals ([Q]); NaN is never produced on
    the paths modelled here (every operand of the arithmetic in [tick] is
    either guarded by a truthiness test or defaulted by [setupAction]).

    The controlled object (the host's "physical") is a record.  Its
    rotation-aware relative translations ([avatar.translateZ],
    [avatar.translateX]) belong to the host, so they are the methods of a
    type class [Avatar].  As in voxel-physical, [avatar] and [yaw] are the
    same scene object, hence one position. *)

From Stdlib Require Import QArith Lia.
From stdpp Require Import base gmap strings list.

Open Scope Q_scope.

(* ------------------------------------------------------------------ *)
(** ** JS values *)

Record vec := mkvec { vx : Q; vy : Q; vz : Q }.

Inductive jsval :=
| JUndef
| JNull
| JBool (b : bool)
| JNum (q : Q)
| JObj (p : vec).   (* a point: [{x,y,z}], [[x,y,z]] or a Vector3 *)

(** ToBoolean *)
Definition truthy (v : jsval) : bool :=
  match v with
  | JUndef | JNull => false
  | JBool b => b
  | JNum q => negb (Qeq_bool q 0)
  | JObj _ => true
  end.

(** [a || b] returns its first operand when it is truthy. *)
Definition js_or (a b : jsval) : jsval := if truthy a then a else b.

(** ToNumber on the values that reach arithmetic ([null] and [false] are
    0, [true] is 1).  [undefined] (NaN in JS) never reaches arithmetic in
    the modelled paths; it is mapped to 0. *)
Definition to_num (v : jsval) : Q :=
  match v with
  | JNum q => q
  | JBool true => 1
  | _ => 0
  end.

Definition Qlt_bool (x y : Q) : bool := negb (Qle_bool y x).

(** [x < v] and [x > v] for a number [x] and the value [v] of a bound:
    [undefined] and objects compare as NaN (always false), [null] and
    booleans are converted with ToNumber. *)
Definition js_lt (x : Q) (v : jsval) : bool :=
  match v with
  | JUndef | JObj _ => false
  | _ => Qlt_bool x (to_num v)
  end.

Definition js_gt (x : Q) (v : jsval) : bool :=
  match v with
  | JUndef | JObj _ => false
  | _ => Qlt_bool (to_num v) x
  end.

(** A JS object with string keys. *)
Abbreviation jsobj := (gmap string jsval).

(** Property read: a missing property is [undefined]. *)
Definition get (o : jsobj) (k : string) : jsval :=
  match o !! k with Some v => v | None => JUndef end.

(* ------------------------------------------------------------------ *)
(** ** The controlled object (external, owned by the host) *)

Record host := mkhost {
  pos : vec;              (* target.yaw.position = target.avatar.position *)
  rot_y : Q;              (* target.rotation.y *)
  velocity : vec;
  acceleration : vec;
  forces : list nat;      (* applied forces, by handle *)
  resting_y : bool        (* target.resting.y *)
}.

Class Avatar := {
  translateZ_rel : Q -> vec -> vec;   (* avatar.translateZ(d) *)
  translateX_rel : Q -> vec -> vec    (* avatar.translateX(d) *)
}.

Definition vzero : vec := mkvec 0 0 0.

Definition set_x (p : vec) (x : Q) : vec := mkvec x (vy p) (vz p).
Definition set_y (p : vec) (y : Q) : vec := mkvec (vx p) y (vz p).
Definition set_z (p : vec) (z : Q) : vec := mkvec (vx p) (vy p) z.

Definition with_pos (t : host) (p : vec) : host :=
  mkhost p (rot_y t) (velocity t) (acceleration t) (forces t) (resting_y t).
Definition with_rot (t : host) (r : Q) : host :=
  mkhost (pos t) r (velocity t) (acceleration t) (forces t) (resting_y t).
Definition with_physics (t : host) (v a : vec) (fs : list nat) : host :=
  mkhost (pos t) (rot_y t) v a fs (resting_y t).

(** voxel-physical: [subjectTo] pushes the force, [removeForce] splices out
    its first occurrence. *)
Definition subjectTo (g : nat) (t : host) : host :=
  with_physics t (velocity t) (acceleration t) (forces t ++ [g]).

Fixpoint remove_first (g : nat) (l : list nat) : list nat :=
  match l with
  | [] => []
  | h :: tl => if Nat.eqb h g then tl else h :: remove_first g tl
  end.

Definition removeForce (g : nat) (t : host) : host :=
  with_physics t (velocity t) (acceleration t) (remove_first g (forces t)).

(* ------------------------------------------------------------------ *)
(** ** Bounds enforcement: [proto.setPosition] *)

Section SetPosition.

Variable bounds : jsobj.

(** [position] is either the live [target.yaw.position] (an alias: each
    test reads the coordinate as left by the previous assignment) or a
    separate vector such as [_endpos].  [read] gives [position] from the
    current live position.  A bound written into the position is stored
    as the bound's value; [null] is read as 0 by every later use, which is
    how it is stored here. *)
Variable read : vec -> vec.

Definition clamp_step (test : Q -> jsval -> bool) (coord : vec -> Q)
    (upd : vec -> Q -> vec) (key : string) (p : vec) : vec :=
  if test (coord (read p)) (get bounds key)
  then upd p (to_num (get bounds key)) else p.

Definition setPosition_pos (p : vec) : vec :=
  let p := clamp_step js_lt vx set_x "minx" p in
  let p := clamp_step js_gt vx set_x "maxx" p in
  let p := clamp_step js_lt vy set_y "miny" p in
  let p := clamp_step js_gt vy set_y "maxy" p in
  let p := clamp_step js_lt vz set_z "minz" p in
  clamp_step js_gt vz set_z "maxz" p.

Definition setPosition (t : host) : host := with_pos t (setPosition_pos (pos t)).

End SetPosition.

(** [this.setPosition(target, target.yaw.position)] *)
Definition setPosition_live (bounds : jsobj) : host -> host :=
  setPosition bounds (fun p => p).

(** [this.setPosition(target, endpos)] *)
Definition setPosition_to (bounds : jsobj) (endpos : vec) : host -> host :=
  setPosition bounds (fun _ => endpos).

(** The constructor's default bounds object. *)
Definition default_bounds : jsobj :=
  <["minx" := JNull]> (<["maxx" := JNull]> (<["miny" := JNull]>
  (<["maxy" := JNull]> (<["minz" := JNull]> (<["maxz" := JNull]> ∅))))).

(** [o.k] read as a point ([_startpos], [_endpos]).  When [o.k] is not
    an object the source throws (a read of [.x] on [undefined]) or reads
    [undefined] coordinates; the model reads the origin instead.  Every
    action [setupAction] prepares has both points, and the theorems about
    running or finishing actions assume them. *)
Definition get_vec (o : jsobj) (k : string) : vec :=
  match get o k with JObj p => p | _ => vzero end.

(** JS unary minus. *)
Definition js_neg (v : jsval) : jsval := JNum (- to_num v).

(* ------------------------------------------------------------------ *)
(** ** The controller *)

(** The output channel's buffer holds snapshots; [None] is the [null]
    end-of-stream sentinel. *)
Inductive event :=
| EvData (d : jsobj)
| EvEnd
| EvDrain
| EvPause.

Record ctl := mkctl {
  c_action : option jsobj;       (* this._action *)
  c_target : option host;        (* this._target *)
  c_queue : list jsobj;          (* this._action_queue *)
  c_bounds : jsobj;              (* this.bounds *)
  c_max_actions : nat;           (* this.max_actions *)
  c_buffer : list (option jsobj);(* this.buffer *)
  c_paused : bool;               (* this.paused *)
  c_gravity : nat;               (* this._gravity *)
  c_events : list event          (* events emitted so far *)
}.

Definition set_action (s : ctl) (a : option jsobj) : ctl :=
  mkctl a (c_target s) (c_queue s) (c_bounds s) (c_max_actions s)
    (c_buffer s) (c_paused s) (c_gravity s) (c_events s).
Definition set_target (s : ctl) (t : option host) : ctl :=
  mkctl (c_action s) t (c_queue s) (c_bounds s) (c_max_actions s)
    (c_buffer s) (c_paused s) (c_gravity s) (c_events s).
Definition set_queue (s : ctl) (q : list jsobj) : ctl :=
  mkctl (c_action s) (c_target s) q (c_bounds s) (c_max_actions s)
    (c_buffer s) (c_paused s) (c_gravity s) (c_events s).
Definition set_buffer (s : ctl) (b : list (option jsobj)) : ctl :=
  mkctl (c_action s) (c_target s) (c_queue s) (c_bounds s) (c_max_actions s)
    b (c_paused s) (c_gravity s) (c_events s).
Definition set_paused (s : ctl) (p : bool) : ctl :=
  mkctl (c_action s) (c_target s) (c_queue s) (c_bounds s) (c_max_actions s)
    (c_buffer s) p (c_gravity s) (c_events s).
Definition emit (s : ctl) (e : event) : ctl :=
  mkctl (c_action s) (c_target s) (c_queue s) (c_bounds s) (c_max_actions s)
    (c_buffer s) (c_paused s) (c_gravity s) (c_events s ++ [e]).

(** [new DiscreteControl(gravity, opts)]; [opts.maxActions || 1024] and
    [opts.movementBounds || default]. *)
Definition DiscreteControl (gravity : nat) (maxActions : option nat)
    (movementBounds : option jsobj) : ctl :=
  mkctl None None []
    (match movementBounds with Some b => b | None => default_bounds end)
    (match maxActions with Some (S n) => S n | _ => 1024%nat end)
    [] false gravity [].

(** [proto.target(target)]: a setter only when given an object. *)
Definition target (t : option host) (s : ctl) : ctl :=
  match t with Some _ => set_target s t | None => s end.

(** [proto.setMovementBounds] *)
Definition setMovementBounds (b : option jsobj) (s : ctl) : ctl :=
  mkctl (c_action s) (c_target s) (c_queue s)
    (match b with Some b => b | None => ∅ end) (c_max_actions s)
    (c_buffer s) (c_paused s) (c_gravity s) (c_events s).

(* ------------------------------------------------------------------ *)
(** ** Action normalisation: [validateAction], [getEndPosition],
    [setupAction] *)

Definition tr (a : jsobj) (k : string) : bool := truthy (get a k).

Definition validateAction (a : jsobj) : jsobj :=
  let a := if tr a "rotate" && (tr a "forward" || tr a "backward" || tr a "left"
                 || tr a "right" || tr a "translateX" || tr a "translateY"
                 || tr a "moveto")
           then <["rotate" := JBool false]> a else a in
  let a := if tr a "forward" && tr a "backward"
           then <["backward" := JBool false]> a else a in
  let a := if tr a "left" && tr a "right"
           then <["right" := JBool false]> a else a in
  let a := if (tr a "translateX" || tr a "translateY" || tr a "moveto")
              && (tr a "forward" || tr a "backward" || tr a "left" || tr a "right")
           then <["forward" := JBool false]> (<["backward" := JBool false]>
                (<["left" := JBool false]> (<["right" := JBool false]> a)))
           else a in
  if (tr a "translateX" || tr a "translateY") && tr a "moveto"
  then <["translateX" := JBool false]> (<["translateY" := JBool false]> a)
  else a.

Section Normalise.

Context `{Avatar}.

(** [proto.getEndPosition]: the moves applied once to a copy of the
    avatar's position, which is then restored. *)
Definition getEndPosition (start : vec) (a : jsobj) : vec :=
  let p := start in
  let p := if tr a "forward" then translateZ_rel (to_num (js_neg (get a "forward"))) p else p in
  let p := if tr a "left" then translateX_rel (to_num (js_neg (get a "left"))) p else p in
  let p := if tr a "translateZ" then set_z p (vz p + to_num (get a "translateZ")) else p in
  if tr a "translateX" then set_x p (vx p + to_num (get a "translateX")) else p.

(** [moveto] as a point: an array [[x,y,z]] and an object [{x,y,z}] give
    the same [x] and [z]. *)
Definition moveto_point (v : jsval) : vec :=
  match v with JObj p => p | _ => vzero end.

(** [action.k = f(action)] *)
Definition set_prop (k : string) (f : jsobj -> jsval) (a : jsobj) : jsobj :=
  <[k := f a]> a.

(** Lines 157-164: a [moveto] becomes [translateX]/[translateZ] deltas. *)
Definition resolve_moveto (t : host) (a : jsobj) : jsobj :=
  if tr a "moveto"
  then let m := moveto_point (get a "moveto") in
       <["translateX" := JNum (vx m - vx (pos t))]>
       (<["translateZ" := JNum (vz m - vz (pos t))]> a)
  else a.

(** Lines 167-170: backward into -forward. *)
Definition resolve_backward (a : jsobj) : jsobj :=
  if tr a "backward"
  then <["backward" := JBool false]> (<["forward" := js_neg (get a "backward")]> a)
  else a.

(** Lines 173-176: right into -left. *)
Definition resolve_right (a : jsobj) : jsobj :=
  if tr a "right"
  then <["right" := JBool false]> (<["left" := js_neg (get a "right")]> a)
  else a.

(** Lines 179-181: the defaults. *)
Definition default_height (v : jsval) : jsval :=
  match v with JUndef => JNum (1/2) | h => h end.

(** The body of [setupAction] after the action has been shifted off the
    queue: the normalised action, given the target's current state. *)
Definition normalise (t : host) (c : jsobj) : jsobj :=
  let a := validateAction c in
  let a := resolve_moveto t a in
  let a := resolve_backward a in
  let a := resolve_right a in
  let a := set_prop "duration" (fun a => js_or (get a "duration") (JNum 1000)) a in
  let a := set_prop "height" (fun a => default_height (get a "height")) a in
  let a := set_prop "rotate" (fun a => js_or (get a "rotate") (JNum 0)) a in
  let a := set_prop "_moverel_x" (fun a => js_or (get a "left") (JNum 0)) a in
  let a := set_prop "_moverel_z" (fun a => js_or (get a "forward") (JNum 0)) a in
  let a := set_prop "_moveabs_x" (fun a => js_or (get a "translateX") (JNum 0)) a in
  let a := set_prop "_moveabs_z" (fun a => js_or (get a "translateZ") (JNum 0)) a in
  let a := set_prop "_startpos" (fun _ => JObj (pos t)) a in
  let a := set_prop "_endpos" (fun a => JObj (getEndPosition (pos t) a)) a in
  let a := set_prop "_startrotate" (fun _ => JNum (rot_y t)) a in
  let a := set_prop "_endrotate" (fun a => JNum (rot_y t + to_num (get a "rotate"))) a in
  set_prop "_elapsed" (fun _ => JNum 0) a.

(** Gravity off: [removeForce], then velocity and acceleration zeroed. *)
Definition suspendPhysics (g : nat) (t : host) : host :=
  let t := removeForce g t in
  with_physics t vzero vzero (forces t).

(** [proto.teardownAction] *)
Definition teardownAction (g : nat) (t : host) : host :=
  subjectTo g (with_physics t vzero vzero (forces t)).

(** [proto.setupAction]; it is only called from [tick], after the target
    has been checked. *)
Definition setupAction (s : ctl) : ctl :=
  match c_action s, c_queue s, c_target s with
  | None, c :: rest, Some t =>
      if negb (resting_y t) then s
      else let a := normalise t c in
           set_target (set_action (set_queue s rest) (Some a))
             (Some (suspendPhysics (c_gravity s) t))
  | _, _, _ => s
  end.

End Normalise.

(* ------------------------------------------------------------------ *)
(** ** The scheduler: [proto.tick] *)

Section Tick.

Context `{Avatar}.

(** Line 122: the vertical arc, from the total elapsed time. *)
Definition arc_y (height duration startY elapsed : Q) : Q :=
  let curvature := height / ((duration / 2) * (duration / 2)) in
  - curvature * ((elapsed - duration / 2) * (elapsed - duration / 2)) + height + startY.

(** Lines 82-122: one interpolation frame, applied to the live target. *)
Definition interpolate (a : jsobj) (dt : Q) (t : host) : host :=
  let duration := to_num (get a "duration") in
  let height := to_num (get a "height") in
  let radians := to_num (get a "rotate") in
  let moverel_z := to_num (get a "_moverel_z") in
  let moverel_x := to_num (get a "_moverel_x") in
  let moveabs_z := to_num (get a "translateZ") in
  let moveabs_x := to_num (get a "translateX") in
  let elapsed := to_num (get a "_elapsed") in
  let startpos := get_vec a "_startpos" in
  let p := pos t in
  let p := if tr a "forward" then translateZ_rel (- (moverel_z / duration) * dt) p else p in
  let p := if tr a "left" then translateX_rel (- (moverel_x / duration) * dt) p else p in
  let p := if tr a "translateZ" then set_z p (vz p + (moveabs_z / duration) * dt) else p in
  let p := if tr a "translateX" then set_x p (vx p + (moveabs_x / duration) * dt) else p in
  let r := if tr a "rotate" then rot_y t + (radians / duration) * dt else rot_y t in
  let p := set_y p (arc_y height duration (vy startpos) elapsed) in
  with_rot (with_pos t p) r.

(** Lines 55-126, once [setupAction] has run. *)
Definition tick_step (dt : Q) (s : ctl) : ctl :=
  match c_action s, c_target s with
  | Some a0, Some t =>
      let a := <["_elapsed" := JNum (to_num (get a0 "_elapsed") + dt)]> a0 in
      let duration := to_num (get a "duration") in
      let elapsed := to_num (get a "_elapsed") in
      if Qle_bool duration elapsed then
        (* action complete: "end in precisely the correct state" *)
        let t := setPosition_to (c_bounds s) (get_vec a "_endpos") t in
        let t := with_rot t (to_num (get a "_endrotate")) in
        set_target (set_action s None) (Some (teardownAction (c_gravity s) t))
      else
        let t := interpolate a dt t in
        set_target (set_action s (Some a)) (Some (setPosition_live (c_bounds s) t))
  | _, _ => s
  end.

Definition tick (dt : Q) (s : ctl) : ctl :=
  match c_target s with
  | None => s
  | Some _ => tick_step dt (setupAction s)
  end.

Fixpoint ticks (dts : list Q) (s : ctl) : ctl :=
  match dts with
  | [] => s
  | dt :: rest => ticks rest (tick dt s)
  end.

End Tick.

(* ------------------------------------------------------------------ *)
(** ** Throwing methods *)

(** A JS call either returns or throws a TypeError. *)
Inductive result (A : Type) :=
| Ok (x : A)
| TypeError.
Arguments Ok {A} x.
Arguments TypeError {A}.

(** [proto.reset]; [this._target.velocity] throws when no target is
    bound. *)
Definition reset (s : ctl) : result ctl :=
  let s := set_queue s [] in
  match c_action s with
  | None => Ok s
  | Some _ =>
      match c_target s with
      | Some t => Ok (set_action (set_target s (Some (teardownAction (c_gravity s) t))) None)
      | None => TypeError
      end
  end.

(* ------------------------------------------------------------------ *)
(** ** Command ingestion: [proto.write]

    [numdroppedactions] is a module-level variable, shared by every
    controller; it is threaded next to the controller. *)

Record world := mkworld { w_ctl : ctl; numdroppedactions : nat }.

(** The returned value: [false] when dropped, [undefined] otherwise. *)
Definition write (action : jsobj) (w : world) : world * jsval :=
  let s := w_ctl w in
  if Nat.ltb (c_max_actions s) (length (c_queue s)) then
    (mkworld s (S (numdroppedactions w)), JBool false)
  else
    (mkworld (set_queue s (c_queue s ++ [action])) (numdroppedactions w), JUndef).

Fixpoint write_all (cmds : list jsobj) (w : world) : world * list jsval :=
  match cmds with
  | [] => (w, [])
  | c :: rest =>
      let '(w1, r) := write c w in
      let '(w2, rs) := write_all rest w1 in
      (w2, r :: rs)
  end.

(* ------------------------------------------------------------------ *)
(** ** Output channel: [drain], [outQueue], [emitUpdate] *)

(** [proto.drain], with fuel bounding the loop by the buffer's length. *)
Fixpoint drain_loop (fuel : nat) (s : ctl) : ctl :=
  match fuel with
  | O => s
  | S fuel =>
      match c_buffer s with
      | [] => s
      | d :: rest =>
          if c_paused s then s
          else let s := set_buffer s rest in
               match d with
               | None => emit s EvEnd
               | Some d => drain_loop fuel (emit s (EvData d))
               end
      end
  end.

Definition drain (s : ctl) : ctl := drain_loop (length (c_buffer s)) s.

(** The values a [push] can be looked up on: the [buffer] array, or a
    function object (which has no [push] property). *)
Inductive receiver :=
| RArray
| RFunction.

(** [recv.push(data)]: on an array it appends to the buffer; on a function
    [push] is [undefined], and calling it throws. *)
Definition call_push (recv : receiver) (data : jsobj) (s : ctl) : result ctl :=
  match recv with
  | RArray => Ok (set_buffer s (c_buffer s ++ [Some data]))
  | RFunction => TypeError
  end.

(** [proto.outQueue]: the receiver is [this.outQueue], i.e. the method
    itself, a function. *)
Definition outQueue (data : jsobj) (s : ctl) : result ctl :=
  match call_push RFunction data s with
  | Ok s => Ok (drain s)
  | TypeError => TypeError
  end.

(** The snapshot [emitUpdate] builds from the current action. *)
Definition snapshot (a : jsobj) : jsobj :=
  list_to_map (map (fun k => (k, get a k))
    ["x_rotation_accum"; "y_rotation_accum"; "z_rotation_accum"; "forward";
     "backward"; "left"; "right"; "fire"; "firealt"; "jump"]).

(** [proto.emitUpdate]; reading a property of a null [_action] throws. *)
Definition emitUpdate (s : ctl) : result ctl :=
  match c_action s with
  | None => TypeError
  | Some a => outQueue (snapshot a) s
  end.

(** A host avatar whose yaw is 0: local axes are the world axes. *)
#[export] Instance axis_avatar : Avatar := {
  translateZ_rel := fun d p => set_z p (vz p + d);
  translateX_rel := fun d p => set_x p (vx p + d)
}.

Definition origin_host : host := mkhost vzero 0 vzero vzero [7%nat] true.

Definition cmd (l : list (string * jsval)) : jsobj := list_to_map l.

Definition idle_with (b : option jsobj) (q : list jsobj) : ctl :=
  set_queue (target (Some origin_host) (DiscreteControl 7 None b)) q.

(** Bounds that set no limit on an axis side: the property is absent, or a
    number on the right side of the coordinate. *)
Definition lower_admits (v : jsval) (y : Q) : Prop :=
  v = JUndef \/ exists m, v = JNum m /\ m <= y.
Definition upper_admits (v : jsval) (y : Q) : Prop :=
  v = JUndef \/ exists m, v = JNum m /\ y <= m.

(** The duration [setupAction] leaves on a command. *)
Definition norm_duration (c : jsobj) : Q := to_num (js_or (get c "duration") (JNum 1000)).

(** A controller state in which no action is current and no target is
    missing while an action is current. *)
Definition target_bound_if_active (s : ctl) : Prop :=
  c_action s <> None -> c_target s <> None.

(** [proto.pause] *)
Definition pause (s : ctl) : ctl :=
  if c_paused s then s else emit (set_paused s true) EvPause.

(** The consumer's listeners, as far as the channel sees them: for each
    event, whether the listener it runs calls back into [pause]. *)
Definition listeners := event -> bool.

(** [this.emit(ev)] with the consumer's listeners attached: the event is
    emitted, then its listener runs, possibly pausing the channel. *)
Definition emit_to (pauses : listeners) (s : ctl) (ev : event) : ctl :=
  let s := emit s ev in
  if pauses ev then pause s else s.

(** [proto.drain] with the consumer's listeners run on each event; the
    [while] re-reads [this.paused] after every "data" event. *)
Fixpoint drain_loop_with (pauses : listeners) (fuel : nat) (s : ctl) : ctl :=
  match fuel with
  | O => s
  | S fuel =>
      match c_buffer s with
      | [] => s
      | d :: rest =>
          if c_paused s then s
          else let s := set_buffer s rest in
               match d with
               | None => emit_to pauses s EvEnd
               | Some d => drain_loop_with pauses fuel (emit_to pauses s (EvData d))
               end
      end
  end.

Definition drain_with (pauses : listeners) (s : ctl) : ctl :=
  drain_loop_with pauses (length (c_buffer s)) s.

(** [proto.resume], lines 350-358, with the consumer's listeners. *)
Definition resume (pauses : listeners) (s : ctl) : ctl :=
  let s := drain_with pauses (set_paused s false) in
  if c_paused s then s else emit_to pauses s EvDrain.

(** Listeners that call [pause] on every "data" event. *)
Definition pause_on_data : listeners :=
  fun ev => match ev with EvData _ => true | _ => false end.

(** [proto.createWriteRotationStream]: the stream captures the current
    action object and zeroes its accumulators; with no current action,
    the assignment on [null] throws. *)
Definition init_accums (a : jsobj) : jsobj :=
  <["x_rotation_accum" := JNum 0]> (<["y_rotation_accum" := JNum 0]>
  (<["z_rotation_accum" := JNum 0]> a)).


(** [changes.d || 0] *)
Definition delta_num (v : jsval) : Q := to_num (js_or v (JNum 0)).

(** The stream's [write(changes)], on the captured action object. *)
Definition rotation_write (changes : jsobj) (a : jsobj) : jsobj :=
  let a := <["x_rotation_accum" := JNum (to_num (get a "x_rotation_accum")
                                         - delta_num (get changes "dy"))]> a in
  let a := <["y_rotation_accum" := JNum (to_num (get a "y_rotation_accum")
                                         - delta_num (get changes "dx"))]> a in
  <["z_rotation_accum" := JNum (to_num (get a "z_rotation_accum")
                                + delta_num (get changes "dz"))]> a.

Fixpoint rotation_write_all (cs : list jsobj) (a : jsobj) : jsobj :=
  match cs with
  | [] => a
  | c :: rest => rotation_write_all rest (rotation_write c a)
  end.

(** The five rules of [validateAction], one by one. *)
Definition rule_rotate (a : jsobj) : jsobj :=
  if tr a "rotate" && (tr a "forward" || tr a "backward" || tr a "left"
      || tr a "right" || tr a "translateX" || tr a "translateY" || tr a "moveto")
  then <["rotate" := JBool false]> a else a.
Definition rule_forward (a : jsobj) : jsobj :=
  if tr a "forward" && tr a "backward" then <["backward" := JBool false]> a else a.
Definition rule_left (a : jsobj) : jsobj :=
  if tr a "left" && tr a "right" then <["right" := JBool false]> a else a.
Definition rule_absolute (a : jsobj) : jsobj :=
  if (tr a "translateX" || tr a "translateY" || tr a "moveto")
     && (tr a "forward" || tr a "backward" || tr a "left" || tr a "right")
  then <["forward" := JBool false]> (<["backward" := JBool false]>
       (<["left" := JBool false]> (<["right" := JBool false]> a)))
  else a.
Definition rule_moveto (a : jsobj) : jsobj :=
  if (tr a "translateX" || tr a "translateY") && tr a "moveto"
  then <["translateX" := JBool false]> (<["translateY" := JBool false]> a)
  else a.

(** Every side of the bounds object is absent or a number admitting the
    point. *)
Definition bounds_admit (b : jsobj) (p : vec) : Prop :=
  lower_admits (get b "minx") (vx p) /\ upper_admits (get b "maxx") (vx p) /\
  lower_admits (get b "miny") (vy p) /\ upper_admits (get b "maxy") (vy p) /\
  lower_admits (get b "minz") (vz p) /\ upper_admits (get b "maxz") (vz p).

(** Sum of a list of numbers. *)
Definition sum_q (l : list Q) : Q := fold_right Qplus 0 l.

(** Concrete inputs. *)
Definition move_x2 : jsobj := cmd [("translateX", JNum 2)].
Definition rotate_only : jsobj := cmd [("rotate", JNum 1)].
Definition maxy_bounds (m : Q) : jsobj := <["maxy" := JNum m]> ∅.
Definition running_state : ctl := setupAction (idle_with (Some ∅) [cmd []]).
Definition five_cmds : list jsobj := [cmd []; cmd []; cmd []; cmd []; cmd []].
Definition world_max2 : world := mkworld (DiscreteControl 7 (Some 2%nat) None) 0.
Definition two_snapshots : list jsobj := [cmd [("forward", JNum 1)]; cmd [("left", JNum 1)]].
Definition buffered (b : list (option jsobj)) (p : bool) : ctl :=
  set_paused (set_buffer (DiscreteControl 7 None None) b) p.
Definition fwd_back : jsobj := cmd [("forward", JNum 1); ("backward", JNum 2)].
Definition back_only : jsobj := cmd [("backward", JNum 2)].
Definition left_right : jsobj := cmd [("left", JNum 1); ("right", JNum 2)].
Definition right_only : jsobj := cmd [("right", JNum 3)].
Definition turn_and_step : jsobj := cmd [("rotate", JNum 1); ("forward", JNum 1)].
Definition moveto_cmd : jsobj :=
  cmd [("moveto", JObj (mkvec 3 0 4)); ("translateX", JNum 9); ("left", JNum 1)].
Definition unit_box : jsobj :=
  cmd [("minx", JNum 0); ("maxx", JNum 1); ("miny", JNum 0);
       ("maxy", JNum 1); ("minz", JNum 0); ("maxz", JNum 1)].
Definition far_host : host := mkhost (mkvec 5 (-2) (1/2)) 0 vzero vzero [7%nat] true.
(** One 16 ms frame after [{translateX: 2}] was activated. *)
Definition slid_state : ctl := tick 16 (idle_with (Some ∅) [move_x2]).
Definition slid_target : host :=
  match c_target slid_state with Some t => t | None => origin_host end.
Definition slid_action : jsobj :=
  match c_action slid_state with Some a => a | None => ∅ end.

(* ------------------------------------------------------------------ *)
(** ** Sanity checks on concrete runs *)

Example setup_forward_endpos :
  option_map (fun a => get_vec a "_endpos")
    (c_action (setupAction (idle_with (Some ∅) [cmd [("forward", JNum 2)]])))
  = Some (mkvec 0 0 (-2)).
Proof. vm_compute. reflexivity. Qed.

Example write_returns_undefined :
  snd (write (cmd []) (mkworld (DiscreteControl 7 None None) 0)) = JUndef.
Proof. reflexivity. Qed.

(* ------------------------------------------------------------------ *)
(** ** Property reads through writes *)

Lemma get_insert (o : jsobj) (k k' : string) (v : jsval) :
  get (<[k := v]> o) k' = if String.eqb k k' then v else get o k'.
Proof.
  unfold get. destruct (String.eqb_spec k k') as [->|Hne].
  - by rewrite lookup_insert_eq.
  - by rewrite lookup_insert_ne.
Qed.

Lemma get_insert_ne (o : jsobj) (k k' : string) (v : jsval) :
  k <> k' -> get (<[k := v]> o) k' = get o k'.
Proof. intros Hne. unfold get. by rewrite lookup_insert_ne. Qed.

Ltac get_simp := repeat (rewrite get_insert; cbn [String.eqb Ascii.eqb Bool.eqb]).

(** [validateAction] writes only the intent properties. *)
Lemma validate_get_other (c : jsobj) (k : string) :
  k <> "rotate" -> k <> "backward" -> k <> "right" -> k <> "forward" ->
  k <> "left" -> k <> "translateX" -> k <> "translateY" ->
  get (validateAction c) k = get c k.
Proof.
  intros. unfold validateAction.
  repeat match goal with
  | |- context [if ?b then _ else _] => destruct b
  end;
  repeat (rewrite get_insert_ne by congruence); reflexivity.
Qed.

Lemma validate_rotate_undef (c : jsobj) :
  get c "rotate" = JUndef -> get (validateAction c) "rotate" = JUndef.
Proof.
  intros Hr. unfold validateAction, tr. rewrite Hr. simpl.
  repeat match goal with
  | |- context [if ?b then _ else _] => destruct b
  end; get_simp; exact Hr.
Qed.

Lemma get_set_prop (a : jsobj) (k k' : string) (f : jsobj -> jsval) :
  get (set_prop k f a) k' = if String.eqb k k' then f a else get a k'.
Proof. unfold set_prop. apply get_insert. Qed.

Ltac prop_simp :=
  repeat (rewrite get_set_prop; cbn [String.eqb Ascii.eqb Bool.eqb]).

Lemma resolve_moveto_get (t : host) (a : jsobj) (k : string) :
  k <> "translateX" -> k <> "translateZ" -> get (resolve_moveto t a) k = get a k.
Proof.
  intros. unfold resolve_moveto. destruct (tr a "moveto"); [|done].
  by rewrite !get_insert_ne by congruence.
Qed.

Lemma resolve_backward_get (a : jsobj) (k : string) :
  k <> "backward" -> k <> "forward" -> get (resolve_backward a) k = get a k.
Proof.
  intros. unfold resolve_backward. destruct (tr a "backward"); [|done].
  by rewrite !get_insert_ne by congruence.
Qed.

Lemma resolve_right_get (a : jsobj) (k : string) :
  k <> "right" -> k <> "left" -> get (resolve_right a) k = get a k.
Proof.
  intros. unfold resolve_right. destruct (tr a "right"); [|done].
  by rewrite !get_insert_ne by congruence.
Qed.

(** Reading a property that only the defaults step writes goes back to
    the command. *)
Lemma resolve_all_get (t : host) (c : jsobj) (k : string) :
  k <> "rotate" -> k <> "backward" -> k <> "right" -> k <> "forward" ->
  k <> "left" -> k <> "translateX" -> k <> "translateY" -> k <> "translateZ" ->
  get (resolve_right (resolve_backward (resolve_moveto t (validateAction c)))) k = get c k.
Proof.
  intros.
  rewrite resolve_right_get, resolve_backward_get, resolve_moveto_get by congruence.
  by apply validate_get_other.
Qed.

Section NormaliseReads.

Context `{Avatar}.

Lemma normalise_duration (t : host) (c : jsobj) :
  get (normalise t c) "duration" = js_or (get c "duration") (JNum 1000).
Proof. unfold normalise. prop_simp. by rewrite resolve_all_get by discriminate. Qed.

Lemma normalise_height (t : host) (c : jsobj) :
  get (normalise t c) "height" = default_height (get c "height").
Proof. unfold normalise. prop_simp. by rewrite resolve_all_get by discriminate. Qed.

Lemma normalise_rotate_undef (t : host) (c : jsobj) :
  get c "rotate" = JUndef -> get (normalise t c) "rotate" = JNum 0.
Proof.
  intros Hr. unfold normalise. prop_simp.
  rewrite resolve_right_get, resolve_backward_get, resolve_moveto_get by discriminate.
  by rewrite validate_rotate_undef.
Qed.

Lemma normalise_startpos (t : host) (c : jsobj) :
  get (normalise t c) "_startpos" = JObj (pos t).
Proof. unfold normalise. by prop_simp. Qed.

Lemma normalise_elapsed (t : host) (c : jsobj) :
  get (normalise t c) "_elapsed" = JNum 0.
Proof. unfold normalise. by prop_simp. Qed.

End NormaliseReads.

(* ------------------------------------------------------------------ *)
(** ** Bounds clamp on the y axis *)

Lemma lower_admits_lt (v : jsval) (y : Q) : lower_admits v y -> js_lt y v = false.
Proof.
  intros [->|[m [-> Hm]]]; [done|]. simpl. unfold Qlt_bool.
  apply Qle_bool_iff in Hm. by rewrite Hm.
Qed.

Lemma upper_admits_gt (v : jsval) (y : Q) : upper_admits v y -> js_gt y v = false.
Proof.
  intros [->|[m [-> Hm]]]; [done|]. simpl. unfold Qlt_bool.
  apply Qle_bool_iff in Hm. by rewrite Hm.
Qed.

Lemma clamp_x_keeps_y (b : jsobj) (r : vec -> vec) test k (p : vec) :
  vy (clamp_step b r test vx set_x k p) = vy p.
Proof. unfold clamp_step. by destruct (test _ _). Qed.

Lemma clamp_z_keeps_y (b : jsobj) (r : vec -> vec) test k (p : vec) :
  vy (clamp_step b r test vz set_z k p) = vy p.
Proof. unfold clamp_step. by destruct (test _ _). Qed.

Lemma clamp_y_idle (b : jsobj) test k (p : vec) :
  test (vy p) (get b k) = false -> clamp_step b (fun p => p) test vy set_y k p = p.
Proof. intros Ht. unfold clamp_step. by rewrite Ht. Qed.

(** Clamping x and z never touches y; y itself is left alone when the
    y bounds admit it. *)
Lemma setPosition_live_y (b : jsobj) (p : vec) :
  lower_admits (get b "miny") (vy p) -> upper_admits (get b "maxy") (vy p) ->
  vy (setPosition_pos b (fun p => p) p) = vy p.
Proof.
  intros Hlo Hup. unfold setPosition_pos. cbv zeta.
  rewrite !clamp_z_keeps_y.
  apply lower_admits_lt in Hlo. apply upper_admits_gt in Hup.
  rewrite (clamp_y_idle _ js_lt); [rewrite clamp_y_idle|];
  rewrite ?clamp_x_keeps_y; auto.
Qed.

(** The arc, written as the spec writes it. *)
Lemma arc_y_spec (H D sy t : Q) :
  arc_y H D sy t == H + sy - H / ((D / 2) * (D / 2)) * ((t - D / 2) * (t - D / 2)).
Proof. unfold arc_y. ring. Qed.

Lemma arc_y_apex (H D sy t : Q) : t == D / 2 -> arc_y H D sy t == H + sy.
Proof. intros Ht. unfold arc_y. rewrite Ht. ring. Qed.

Lemma arc_y_start (H D sy t : Q) : ~ D == 0 -> t == 0 -> arc_y H D sy t == sy.
Proof. intros HD Ht. unfold arc_y. rewrite Ht. field. exact HD. Qed.

(* ------------------------------------------------------------------ *)
(** ** One tick, activation and a running frame *)

Section TickLemmas.

Context {AV : Avatar}.

Lemma setupAction_active (s : ctl) (a : jsobj) :
  c_action s = Some a -> setupAction s = s.
Proof. intros Ha. unfold setupAction. by rewrite Ha. Qed.

Lemma setupAction_idle (s : ctl) (c : jsobj) (rest : list jsobj) (t : host) :
  c_action s = None -> c_queue s = c :: rest -> c_target s = Some t ->
  resting_y t = true ->
  setupAction s = set_target (set_action (set_queue s rest) (Some (normalise t c)))
                    (Some (suspendPhysics (c_gravity s) t)).
Proof. intros Ha Hq Ht Hr. unfold setupAction. by rewrite Ha, Hq, Ht, Hr. Qed.

Lemma tick_step_running (dt : Q) (s : ctl) (t : host) (a : jsobj) :
  c_target s = Some t -> c_action s = Some a ->
  let a' := <["_elapsed" := JNum (to_num (get a "_elapsed") + dt)]> a in
  Qle_bool (to_num (get a' "duration")) (to_num (get a' "_elapsed")) = false ->
  c_target (tick_step dt s) = Some (setPosition_live (c_bounds s) (interpolate a' dt t)).
Proof. intros Ht Ha a' Hrun. unfold tick_step. rewrite Ha, Ht. fold a'. by rewrite Hrun. Qed.

Lemma interpolate_y (a : jsobj) (dt : Q) (t : host) :
  vy (pos (interpolate a dt t)) =
  arc_y (to_num (get a "height")) (to_num (get a "duration"))
        (vy (get_vec a "_startpos")) (to_num (get a "_elapsed")).
Proof. reflexivity. Qed.

Lemma suspendPhysics_pos (g : nat) (t : host) : pos (suspendPhysics g t) = pos t.
Proof. reflexivity. Qed.

End TickLemmas.

Lemma lower_admits_compat (v : jsval) (y y' : Q) :
  y == y' -> lower_admits v y -> lower_admits v y'.
Proof. intros E [->|[m [-> Hm]]]; [by left|right]. exists m. split; [done|]. by rewrite <- E. Qed.

Lemma upper_admits_compat (v : jsval) (y y' : Q) :
  y == y' -> upper_admits v y -> upper_admits v y'.
Proof. intros E [->|[m [-> Hm]]]; [by left|right]. exists m. split; [done|]. by rewrite <- E. Qed.

Lemma Qle_bool_false (x y : Q) : y < x -> Qle_bool x y = false.
Proof.
  intros Hlt. destruct (Qle_bool x y) eqn:E; [|done].
  apply Qle_bool_iff in E. exfalso. by apply (Qlt_not_le y x).
Qed.

Lemma get_elapsed_ne (a : jsobj) (v : jsval) (k : string) :
  k <> "_elapsed" -> get (<["_elapsed" := v]> a) k = get a k.
Proof. intros Hk. apply get_insert_ne. congruence. Qed.

(* ------------------------------------------------------------------ *)
(** ** The vertical arc *)

Lemma sum_q_nonneg (l : list Q) : Forall (fun d => 0 <= d) l -> 0 <= sum_q l.
Proof.
  induction 1 as [|d l Hd _ IH]; [apply Qle_refl|].
  unfold sum_q in *. cbn [fold_right].
  apply Qle_trans with (0 + 0); [vm_compute; discriminate|by apply Qplus_le_compat].
Qed.

Section RunningTicks.

Context {AV : Avatar}.

Lemma ticks_app (l1 l2 : list Q) (s : ctl) : ticks (l1 ++ l2) s = ticks l2 (ticks l1 s).
Proof. revert s. induction l1 as [|d l1 IH]; intros s; [reflexivity|]. apply IH. Qed.

(** A running frame that stays below the duration. *)
Lemma tick_running_step (dt e : Q) (s : ctl) (t : host) (a : jsobj) :
  c_target s = Some t -> c_action s = Some a -> get a "_elapsed" = JNum e ->
  e + dt < to_num (get a "duration") ->
  tick dt s =
  set_target (set_action s (Some (<["_elapsed" := JNum (e + dt)]> a)))
    (Some (setPosition_live (c_bounds s) (interpolate (<["_elapsed" := JNum (e + dt)]> a) dt t))).
Proof.
  intros Ht Ha He Hlt. unfold tick. rewrite Ht, (setupAction_active s a Ha).
  unfold tick_step. rewrite Ha, Ht. cbv zeta. rewrite He. cbn [to_num].
  rewrite (get_insert _ "_elapsed" "duration"), (get_insert _ "_elapsed" "_elapsed").
  cbn [String.eqb Ascii.eqb Bool.eqb to_num].
  rewrite (Qle_bool_false _ _ Hlt). reflexivity.
Qed.

(** Running frames keep the action running: only [_elapsed] changes, by
    the frame times, and the bounds stay. *)
Lemma ticks_running (l : list Q) :
  forall (s : ctl) (a : jsobj) (t : host) (e : Q),
  c_action s = Some a -> c_target s = Some t -> get a "_elapsed" = JNum e ->
  Forall (fun d => 0 <= d) l -> e + sum_q l < to_num (get a "duration") ->
  exists a' t' e', c_action (ticks l s) = Some a' /\ c_target (ticks l s) = Some t' /\
    c_bounds (ticks l s) = c_bounds s /\ get a' "_elapsed" = JNum e' /\
    e' == e + sum_q l /\ (forall k, k <> "_elapsed" -> get a' k = get a k).
Proof.
  induction l as [|d l IH]; intros s a t e Ha Ht He Hnn Hlt.
  - exists a, t, e. cbn [ticks].
    do 4 (split; [assumption || reflexivity|]).
    split; [unfold sum_q; cbn [fold_right]; ring|done].
  - inversion Hnn as [|? ? Hd Hrest]; subst.
    pose proof (sum_q_nonneg l Hrest) as Hs.
    assert (Hsum : sum_q (d :: l) = d + sum_q l) by reflexivity.
    rewrite Hsum in Hlt.
    assert (Hstep : e + d < to_num (get a "duration")).
    { apply Qle_lt_trans with (e + (d + sum_q l)); [|exact Hlt].
      rewrite <- (Qplus_0_r (e + d)), <- Qplus_assoc.
      apply Qplus_le_compat; [apply Qle_refl|].
      apply Qplus_le_compat; [apply Qle_refl|exact Hs]. }
    cbn [ticks]. rewrite (tick_running_step d e s t a Ht Ha He Hstep).
    set (a1 := <["_elapsed" := JNum (e + d)]> a).
    assert (G : forall k, k <> "_elapsed" -> get a1 k = get a k).
    { intros k Hk. unfold a1. by apply get_insert_ne. }
    assert (He1 : get a1 "_elapsed" = JNum (e + d)).
    { unfold a1. rewrite get_insert. reflexivity. }
    assert (Hlt1 : e + d + sum_q l < to_num (get a1 "duration")).
    { rewrite G by congruence. by rewrite <- Qplus_assoc. }
    destruct (IH (set_target (set_action s (Some a1))
                   (Some (setPosition_live (c_bounds s) (interpolate a1 d t))))
                 a1 _ (e + d) eq_refl eq_refl He1 Hrest Hlt1)
      as (a' & t' & e' & Ha' & Ht' & Hb' & He' & Hee & G').
    exists a', t', e'. do 2 (split; [assumption|]).
    split; [rewrite Hb'; reflexivity|]. split; [assumption|].
    split; [rewrite Hee, Hsum; ring|].
    intros k Hk. rewrite G' by exact Hk. by apply G.
Qed.

Lemma arc_y_compat (H D sy e e' : Q) : e == e' -> arc_y H D sy e == arc_y H D sy e'.
Proof. intros E. unfold arc_y. rewrite E. reflexivity. Qed.

End RunningTicks.

Section Arc.

Context {AV : Avatar}.

(** Claim C3 (amended).  A running tick at total elapsed time
    [t = e + dt < D] writes [H + startY - (H/(D/2)^2)(t - D/2)^2] into y,
    from the total elapsed time, and the bounds clamp of the same tick then
    leaves it there whenever the y bounds admit it (absent, or a number on
    the right side).  At [t = D/2] this is [H + startY], at [t = 0] it is
    [startY]. *)
Theorem tick_vertical_arc (dt : Q) (s : ctl) (t : host) (a : jsobj)
    (D H e : Q) (sp : vec) :
  c_target s = Some t -> c_action s = Some a ->
  get a "duration" = JNum D -> get a "height" = JNum H ->
  get a "_startpos" = JObj sp -> get a "_elapsed" = JNum e ->
  0 < D -> 0 <= e + dt -> e + dt < D ->
  lower_admits (get (c_bounds s) "miny") (arc_y H D (vy sp) (e + dt)) ->
  upper_admits (get (c_bounds s) "maxy") (arc_y H D (vy sp) (e + dt)) ->
  exists t', c_target (tick dt s) = Some t' /\
    vy (pos t') == H + vy sp - H / ((D / 2) * (D / 2)) * ((e + dt - D / 2) * (e + dt - D / 2)) /\
    (e + dt == D / 2 -> vy (pos t') == H + vy sp) /\
    (e + dt == 0 -> vy (pos t') == vy sp).
Proof.
  intros Ht Ha Hd Hh Hs He HD _ Hlt Hlo Hup.
  set (a' := <["_elapsed" := JNum (to_num (get a "_elapsed") + dt)]> a).
  assert (Hy : vy (pos (interpolate a' dt t)) = arc_y H D (vy sp) (e + dt)).
  { rewrite interpolate_y. unfold get_vec, a'. rewrite !get_insert.
    cbn [String.eqb Ascii.eqb Bool.eqb]. by rewrite Hd, Hh, Hs, He. }
  unfold tick. rewrite Ht, (setupAction_active s a Ha).
  rewrite (tick_step_running dt s t a Ht Ha).
  2:{ unfold a'. rewrite !get_insert. cbn [String.eqb Ascii.eqb Bool.eqb].
      rewrite Hd, He. by apply Qle_bool_false. }
  fold a'. eexists. split; [reflexivity|].
  unfold setPosition_live, setPosition. cbn [pos with_pos].
  rewrite setPosition_live_y by (rewrite Hy; assumption). rewrite Hy.
  split; [apply arc_y_spec|]. split; [apply arc_y_apex|].
  intros Ht0. apply arc_y_start; [|exact Ht0]. intro HD0. rewrite HD0 in HD. apply (Qlt_irrefl 0 HD).
Qed.

(** Claim C10 (amended).  Whatever intents a command carries, if its
    height is unset then every running tick of its execution (the first,
    which activates it, and each later one while the total elapsed time
    stays below the duration) writes the arc of height 0.5 at the total
    elapsed time into y; when the y bounds admit that value it is the y
    after the tick, so at mid-duration the object is 0.5 above where it
    started. *)
Theorem tick_arc_any_intents (dts : list Q) (dt : Q) (s : ctl) (t : host) (c : jsobj)
    (rest : list jsobj) :
  get c "height" = JUndef ->
  c_action s = None -> c_queue s = c :: rest -> c_target s = Some t ->
  resting_y t = true ->
  Forall (fun d => 0 <= d) dts -> 0 <= dt -> sum_q dts + dt < norm_duration c ->
  lower_admits (get (c_bounds s) "miny")
    (arc_y (1/2) (norm_duration c) (vy (pos t)) (sum_q dts + dt)) ->
  upper_admits (get (c_bounds s) "maxy")
    (arc_y (1/2) (norm_duration c) (vy (pos t)) (sum_q dts + dt)) ->
  exists t', c_target (ticks (dts ++ [dt]) s) = Some t' /\
    vy (pos t') == arc_y (1/2) (norm_duration c) (vy (pos t)) (sum_q dts + dt) /\
    (sum_q dts + dt == norm_duration c / 2 -> vy (pos t') == vy (pos t) + 1/2).
Proof.
  intros Hh Ha Hq Ht Hr Hnn Hdt Hlt Hlo Hup.
  pose proof (setupAction_idle s c rest t Ha Hq Ht Hr) as Hs0.
  set (s0 := setupAction s) in Hs0.
  assert (Hact : c_action s0 = Some (normalise t c)) by (rewrite Hs0; reflexivity).
  assert (Htg : c_target s0 = Some (suspendPhysics (c_gravity s) t)) by (rewrite Hs0; reflexivity).
  assert (Hb0 : c_bounds s0 = c_bounds s) by (rewrite Hs0; reflexivity).
  assert (Htick : forall d, tick d s = tick d s0).
  { intros d. unfold tick. rewrite Ht, Htg. fold s0. by rewrite (setupAction_active s0 _ Hact). }
  assert (Hl : ticks (dts ++ [dt]) s = ticks (dts ++ [dt]) s0).
  { destruct dts; cbn [app ticks]; by rewrite Htick. }
  rewrite Hl, ticks_app. cbn [ticks].
  assert (HD : to_num (get (normalise t c) "duration") = norm_duration c).
  { by rewrite normalise_duration. }
  assert (Hpre : 0 + sum_q dts < to_num (get (normalise t c) "duration")).
  { rewrite HD, Qplus_0_l. apply Qle_lt_trans with (sum_q dts + dt); [|exact Hlt].
    rewrite <- (Qplus_0_r (sum_q dts)) at 1. apply Qplus_le_compat; [apply Qle_refl|exact Hdt]. }
  destruct (ticks_running dts s0 (normalise t c) _ 0 Hact Htg (normalise_elapsed t c) Hnn Hpre)
    as (a' & t' & e' & Ha' & Ht' & Hb' & He' & Hee & G).
  assert (Hfin : e' + dt < to_num (get a' "duration")).
  { rewrite G, HD by congruence. rewrite Hee, Qplus_0_l. exact Hlt. }
  rewrite (tick_running_step dt e' _ t' a' Ht' Ha' He' Hfin).
  set (a1 := <["_elapsed" := JNum (e' + dt)]> a').
  assert (E : arc_y (1/2) (norm_duration c) (vy (pos t)) (e' + dt)
              == arc_y (1/2) (norm_duration c) (vy (pos t)) (sum_q dts + dt)).
  { apply arc_y_compat. rewrite Hee. ring. }
  assert (Hy : vy (pos (interpolate a1 dt t'))
               = arc_y (1/2) (norm_duration c) (vy (pos t)) (e' + dt)).
  { rewrite interpolate_y. unfold get_vec, a1. rewrite !get_insert.
    cbn [String.eqb Ascii.eqb Bool.eqb]. rewrite !G by congruence.
    by rewrite normalise_duration, normalise_height, normalise_startpos, Hh. }
  eexists. split; [reflexivity|].
  unfold setPosition_live, setPosition. cbn [pos with_pos c_bounds set_target set_action].
  rewrite Hb', Hb0.
  rewrite setPosition_live_y; rewrite ?Hy.
  - split; [exact E|]. intros Hm. rewrite E. rewrite (arc_y_apex _ _ _ _ Hm). ring.
  - eapply lower_admits_compat; [symmetry; exact E|exact Hlo].
  - eapply upper_admits_compat; [symmetry; exact E|exact Hup].
Qed.


End Arc.

(* ------------------------------------------------------------------ *)
(** ** Command ingestion *)

Lemma write_all_from (cmds : list jsobj) (w : world) :
  (length (c_queue (w_ctl w)) <= S (c_max_actions (w_ctl w)))%nat ->
  let m := (S (c_max_actions (w_ctl w)) - length (c_queue (w_ctl w)))%nat in
  c_queue (w_ctl (fst (write_all cmds w))) = c_queue (w_ctl w) ++ firstn m cmds /\
  c_max_actions (w_ctl (fst (write_all cmds w))) = c_max_actions (w_ctl w) /\
  numdroppedactions (fst (write_all cmds w)) = (numdroppedactions w + (length cmds - m))%nat /\
  snd (write_all cmds w) = repeat JUndef (Nat.min m (length cmds)) ++ repeat (JBool false) (length cmds - m).
Proof.
  revert w. induction cmds as [|c rest IH]; intros w Hle m.
  - cbn [write_all fst snd length]. rewrite firstn_nil, app_nil_r, Nat.min_0_r, Nat.sub_0_l.
    repeat split; first [reflexivity | lia].
  - simpl write_all. unfold write.
    destruct (Nat.ltb (c_max_actions (w_ctl w)) (length (c_queue (w_ctl w)))) eqn:Hlt.
    + apply Nat.ltb_lt in Hlt.
      assert (Hm : m = 0%nat) by (unfold m; lia).
      set (w1 := mkworld (w_ctl w) (S (numdroppedactions w))).
      pose proof (IH w1 Hle) as H1.
      destruct (write_all rest w1) as [w2 rs] eqn:Ew.
      cbn zeta in H1. cbn [fst snd w_ctl w1 numdroppedactions] in H1 |- *.
      fold m in H1. rewrite Hm in H1 |- *.
      destruct H1 as (Hq & Hmax & Hd & Hr).
      cbn [firstn length repeat Nat.min app] in *.
      repeat split; try assumption.
      * rewrite Hd. lia.
      * rewrite Hr, Nat.sub_0_r. reflexivity.
    + apply Nat.ltb_ge in Hlt.
      set (w1 := mkworld (set_queue (w_ctl w) (c_queue (w_ctl w) ++ [c])) (numdroppedactions w)).
      assert (Hle1 : (length (c_queue (w_ctl w1)) <= S (c_max_actions (w_ctl w1)))%nat).
      { simpl. rewrite length_app. simpl. lia. }
      pose proof (IH w1 Hle1) as H1.
      assert (Hm1 : (S (c_max_actions (w_ctl w1)) - length (c_queue (w_ctl w1)))%nat = (m - 1)%nat).
      { simpl. rewrite length_app. simpl. unfold m. lia. }
      assert (Hm0 : (1 <= m)%nat) by (unfold m; lia).
      destruct (write_all rest w1) as [w2 rs] eqn:Ew.
      cbn zeta in H1. rewrite Hm1 in H1.
      destruct H1 as (Hq & Hmax & Hd & Hr).
      cbn [fst snd] in *.
      destruct m as [|m']; [lia|].
      replace (S m' - 1)%nat with m' in * by lia.
      cbn [firstn length repeat Nat.min app] in *.
      repeat split.
      * rewrite Hq. simpl. by rewrite <- app_assoc.
      * rewrite Hmax. reflexivity.
      * rewrite Hd. simpl. lia.
      * rewrite Hr. reflexivity.
Qed.

(** Claim C6.  From an empty queue, [max_actions + k] writes ([k > 0])
    accept exactly the first [max_actions + 1] commands, in order, and
    drop the last [k - 1]: each of those returns [false] and bumps the
    drop counter. *)
Theorem write_overflow (w : world) (cmds : list jsobj) (k : nat) :
  c_queue (w_ctl w) = [] -> (0 < k)%nat ->
  length cmds = (c_max_actions (w_ctl w) + k)%nat ->
  let '(w', rs) := write_all cmds w in
  c_queue (w_ctl w') = firstn (S (c_max_actions (w_ctl w))) cmds /\
  length (c_queue (w_ctl w')) = S (c_max_actions (w_ctl w)) /\
  numdroppedactions w' = (numdroppedactions w + (k - 1))%nat /\
  rs = repeat JUndef (S (c_max_actions (w_ctl w))) ++ repeat (JBool false) (k - 1).
Proof.
  intros Hq Hk Hlen.
  destruct (write_all_from cmds w) as (Hq' & _ & Hd & Hr); [rewrite Hq; simpl; lia|].
  rewrite Hq in Hq', Hd, Hr. simpl in Hq', Hd, Hr. rewrite ?Nat.sub_0_r in Hq', Hd, Hr.
  destruct (write_all cmds w) as [w' rs]. simpl in *.
  rewrite Hlen in Hd, Hr.
  replace (c_max_actions (w_ctl w) + k - S (c_max_actions (w_ctl w)))%nat with (k - 1)%nat in Hd, Hr by lia.
  repeat split; try assumption.
  - rewrite Hq', length_firstn. lia.
  - rewrite Hr. destruct k as [|k']; [lia|]. rewrite Nat.add_succ_r. simpl.
    rewrite Nat.min_l by lia. reflexivity.
Qed.

(* ------------------------------------------------------------------ *)
(** ** Normalisation defaults *)

Section Defaults.

Context {AV : Avatar}.

Lemma js_or_1000_truthy (v : jsval) : truthy (js_or v (JNum 1000)) = true.
Proof. unfold js_or. by destruct (truthy v) eqn:E. Qed.

(** Claim C7.  When a command is activated, an unset or zero duration
    becomes 1000 (so the running action's duration is never 0), an unset
    height becomes 0.5 while an explicit 0 stays 0, and an unset rotate
    becomes 0. *)
Theorem setup_defaults (s : ctl) (c : jsobj) (rest : list jsobj) (t : host) :
  c_action s = None -> c_queue s = c :: rest -> c_target s = Some t ->
  resting_y t = true ->
  exists a, c_action (setupAction s) = Some a /\
    ((get c "duration" = JUndef \/ exists q, get c "duration" = JNum q /\ q == 0) ->
       get a "duration" = JNum 1000) /\
    truthy (get a "duration") = true /\
    (get c "height" = JUndef -> get a "height" = JNum (1/2)) /\
    (forall q, get c "height" = JNum q -> q == 0 -> get a "height" = JNum q) /\
    (get c "rotate" = JUndef -> get a "rotate" = JNum 0).
Proof.
  intros Ha Hq Ht Hr. rewrite (setupAction_idle s c rest t Ha Hq Ht Hr).
  exists (normalise t c). split; [reflexivity|].
  rewrite normalise_duration, normalise_height. repeat split.
  - intros [Hd|[q [Hd Hq0]]]; rewrite Hd; [reflexivity|].
    unfold js_or. simpl. apply Qeq_bool_iff in Hq0. by rewrite Hq0.
  - apply js_or_1000_truthy.
  - intros Hh. by rewrite Hh.
  - intros q Hh _. by rewrite Hh.
  - apply normalise_rotate_undef.
Qed.

End Defaults.

(* ------------------------------------------------------------------ *)
(** ** Cancellation and status emission *)

(** The hypothesis of [reset_cancels] holds on every reachable state: the
    constructor has no action, and [tick] only makes an action current
    after checking the target, which nothing ever unbinds. *)
Lemma DiscreteControl_target_bound (g : nat) (m : option nat) (b : option jsobj) :
  target_bound_if_active (DiscreteControl g m b).
Proof. intros H. by contradiction H. Qed.

Lemma target_keeps_target_bound (t : option host) (s : ctl) :
  target_bound_if_active s -> target_bound_if_active (target t s).
Proof. unfold target, target_bound_if_active. destruct t; simpl; [discriminate|auto]. Qed.

Lemma setupAction_target `{Avatar} (s : ctl) :
  c_target s <> None -> c_target (setupAction s) <> None.
Proof.
  unfold setupAction. intros Ht.
  destruct (c_action s), (c_queue s), (c_target s) eqn:E; try congruence.
  destruct (negb _); [congruence|]. cbn [c_target set_target]. discriminate.
Qed.

Lemma tick_step_target `{Avatar} (dt : Q) (s : ctl) :
  c_target s <> None -> c_target (tick_step dt s) <> None.
Proof.
  unfold tick_step. intros Ht.
  destruct (c_action s), (c_target s) eqn:E; try congruence.
  destruct (Qle_bool _ _); cbn [c_target set_target]; discriminate.
Qed.

Lemma tick_keeps_target_bound `{Avatar} (dt : Q) (s : ctl) :
  target_bound_if_active s -> target_bound_if_active (tick dt s).
Proof.
  unfold target_bound_if_active, tick. intros Hwf.
  destruct (c_target s) as [t|] eqn:Ht; [|rewrite Ht; exact Hwf].
  intros _. apply tick_step_target, setupAction_target. by rewrite Ht.
Qed.

(** Claim C8.  [reset] empties the queue; with an action current it
    clears it and tears physics down (velocity and acceleration zeroed,
    gravity reapplied) and leaves position and rotation as they were.
    The states considered are those the controller reaches: an action is
    current only while a target is bound. *)
Theorem reset_cancels (s : ctl) :
  target_bound_if_active s ->
  exists s', reset s = Ok s' /\ c_queue s' = [] /\ c_action s' = None /\
    forall t, c_target s = Some t ->
      exists t', c_target s' = Some t' /\ pos t' = pos t /\ rot_y t' = rot_y t /\
        (c_action s <> None ->
           velocity t' = vzero /\ acceleration t' = vzero /\
           forces t' = forces t ++ [c_gravity s]) /\
        (c_action s = None -> t' = t).
Proof.
  intros Hwf. unfold reset. cbn [c_action c_target c_gravity set_queue].
  destruct (c_action s) as [a|] eqn:Ha.
  - destruct (c_target s) as [t|] eqn:Ht.
    + eexists. split; [reflexivity|]. repeat split.
      intros t0 Ht0. injection Ht0 as <-.
      eexists. split; [reflexivity|]. repeat split; done.
    + exfalso. apply Hwf; [by rewrite Ha|]. exact Ht.
  - eexists. split; [reflexivity|]. simpl. rewrite Ha. repeat split.
    intros t0 Ht0. exists t0. repeat split; done.
Qed.

(** Claim C9 (the code throws instead).  [emitUpdate] never reaches the
    buffer: [outQueue] calls [push] on itself, a function, and throws. *)
Theorem emitUpdate_throws (s : ctl) : emitUpdate s = TypeError.
Proof. unfold emitUpdate. by destruct (c_action s). Qed.

(* ------------------------------------------------------------------ *)
(** ** Concrete runs: where the code departs from its intent *)

(** Claim C1 (code bug).  [{translateX: 2}] activated at the origin has
    [_endpos = (2,0,0)]; a single [tick(1000)] completes it, yet the
    target stays at the origin: [setPosition(target, endpos)] only clamps,
    it never copies [endpos] into the position. *)
Theorem tick_end_keeps_last_position :
  option_map (fun a => get_vec a "_endpos")
    (c_action (setupAction (idle_with (Some ∅) [move_x2]))) = Some (mkvec 2 0 0) /\
  c_action (tick 1000 (idle_with (Some ∅) [move_x2])) = None /\
  option_map pos (c_target (tick 1000 (idle_with (Some ∅) [move_x2]))) = Some (mkvec 0 0 0).
Proof. vm_compute. repeat split. Qed.

(** Claim C2 (code bug).  With the constructor's bounds, where every side
    is [null] ("no bound"), clamping moves [x = 3] to [null], i.e. 0;
    with the bound absent the coordinate is left alone. *)
Theorem null_bound_clamps_to_zero :
  pos (setPosition_live default_bounds (with_pos origin_host (mkvec 3 0 0))) = mkvec 0 0 0 /\
  pos (setPosition_live ∅ (with_pos origin_host (mkvec 3 0 0))) = mkvec 3 0 0.
Proof. vm_compute. split; reflexivity. Qed.

(** Claim C4 (code bug, same defect as C1).  [{translateX: 2}] over 1000:
    two ticks of 500 end at [x = 1], one tick of 1000 ends at [x = 0]; the
    end rotation agrees. *)
Theorem split_ticks_differ :
  match c_target (ticks [500; 500] (idle_with (Some ∅) [move_x2])),
        c_target (ticks [1000] (idle_with (Some ∅) [move_x2])) with
  | Some t1, Some t2 =>
      vx (pos t1) == 1 /\ vx (pos t2) == 0 /\ ~ (vx (pos t1) == vx (pos t2)) /\
      rot_y t1 == rot_y t2
  | _, _ => False
  end.
Proof. vm_compute. repeat split; try reflexivity. discriminate. Qed.

(** Claim C5 (code bug).  The absolute-over-relative rule tests
    [translateY] where the command has [translateZ]: with [translateX] the
    forward intent is cleared, with [translateZ] it is kept and both
    movements run. *)
Theorem translateZ_keeps_forward :
  get (normalise origin_host (cmd [("translateX", JNum 1); ("forward", JNum 1)])) "forward"
    = JBool false /\
  get (normalise origin_host (cmd [("translateZ", JNum 1); ("forward", JNum 1)])) "forward"
    = JNum 1 /\
  get (normalise origin_host (cmd [("translateZ", JNum 1); ("forward", JNum 1)])) "_moverel_z"
    = JNum 1 /\
  get (normalise origin_host (cmd [("translateZ", JNum 1); ("forward", JNum 1)])) "translateZ"
    = JNum 1.
Proof. vm_compute. repeat split. Qed.

(** Claim C3, as stated, fails: with [maxy = 0.1] the apex of the default
    arc (0.5 above the start) is clamped to 0.1. *)
Lemma tick_vertical_arc_cex :
  match c_target (tick 500 (idle_with (Some (maxy_bounds (1/10))) [cmd []])) with
  | Some t => vy (pos t) == 1/10 /\ ~ (vy (pos t) == 1/2 + 0)
  | None => False
  end.
Proof. vm_compute. split; [reflexivity|discriminate]. Qed.

(** Claim C10, as stated, fails: with [maxy = 0] a rotation-only command
    does not displace the object vertically at all. *)
Lemma tick_arc_any_intents_cex :
  match c_target (tick 500 (idle_with (Some (maxy_bounds 0)) [rotate_only])) with
  | Some t => vy (pos t) == 0 /\ ~ (vy (pos t) == vy (pos origin_host) + 1/2)
  | None => False
  end.
Proof. vm_compute. split; [reflexivity|discriminate]. Qed.

(* ------------------------------------------------------------------ *)
(** ** Witnesses: the theorems applied at concrete inputs *)

Ltac close_concrete :=
  vm_compute; first [reflexivity | intro; discriminate | left; reflexivity].

Lemma tick_vertical_arc_witness :
  exists t', c_target (tick 500 running_state) = Some t' /\
    (0 + 500 == 1000 / 2 -> vy (pos t') == 1/2 + vy vzero).
Proof.
  destruct (tick_vertical_arc 500 running_state (suspendPhysics 7 origin_host)
              (normalise origin_host (cmd [])) 1000 (1/2) 0 vzero)
    as (t' & Ht & _ & Hapex & _); try close_concrete.
  exists t'. split; [exact Ht|exact Hapex].
Defined.

Lemma tick_arc_any_intents_witness :
  exists t', c_target (ticks ([100] ++ [400]) (idle_with (Some ∅) [rotate_only])) = Some t' /\
    (sum_q [100] + 400 == norm_duration rotate_only / 2 ->
     vy (pos t') == vy (pos origin_host) + 1/2).
Proof.
  destruct (tick_arc_any_intents [100] 400 (idle_with (Some ∅) [rotate_only]) origin_host
              rotate_only [])
    as (t' & Ht & _ & Hmid); try reflexivity; try (repeat constructor; close_concrete);
    try close_concrete.
  exists t'. split; [exact Ht|exact Hmid].
Defined.


Lemma write_overflow_witness :
  let '(w', rs) := write_all five_cmds world_max2 in
  numdroppedactions w' = 2%nat /\ rs = [JUndef; JUndef; JUndef; JBool false; JBool false].
Proof.
  pose proof (write_overflow world_max2 five_cmds 3 eq_refl ltac:(lia) eq_refl) as H.
  destruct (write_all five_cmds world_max2) as [w' rs].
  destruct H as (_ & _ & Hd & Hr). split; [exact Hd|exact Hr].
Defined.

Lemma setup_defaults_witness :
  exists a, c_action (setupAction (idle_with (Some ∅) [cmd []])) = Some a /\
    get a "duration" = JNum 1000 /\ get a "height" = JNum (1/2).
Proof.
  destruct (setup_defaults (idle_with (Some ∅) [cmd []]) (cmd []) [] origin_host)
    as (a & Ha & Hd & _ & Hh & _); try close_concrete.
  exists a. split; [exact Ha|]. split; [apply Hd; left; reflexivity|apply Hh; reflexivity].
Defined.

Lemma reset_cancels_witness :
  exists s', reset running_state = Ok s' /\ c_queue s' = [] /\ c_action s' = None.
Proof.
  destruct (reset_cancels running_state) as (s' & Hr & Hq & Ha & _).
  - intros _. discriminate.
  - exists s'. split; [exact Hr|]. split; [exact Hq|exact Ha].
Defined.

(* ------------------------------------------------------------------ *)
(** ** Output channel: [drain], [pause], [resume] *)





(** [pause] emits "pause" only when not yet paused, and while paused
    [drain] delivers nothing. *)
Theorem pause_holds_output (s : ctl) :
  pause (pause s) = pause s /\ drain (pause s) = pause s /\
  c_paused (pause s) = true /\
  c_events (pause s) = if c_paused s then c_events s else c_events s ++ [EvPause].
Proof.
  assert (Hp : c_paused (pause s) = true).
  { unfold pause. by destruct (c_paused s) eqn:E. }
  split; [unfold pause at 1; by rewrite Hp|].
  split.
  - unfold drain. destruct (length (c_buffer (pause s))) as [|n]; [reflexivity|].
    cbn [drain_loop]. destruct (c_buffer (pause s)); [reflexivity|]. by rewrite Hp.
  - split; [exact Hp|]. unfold pause. by destruct (c_paused s).
Qed.

Lemma drain_loop_with_silent (fuel : nat) (s : ctl) :
  drain_loop_with (fun _ => false) fuel s = drain_loop fuel s.
Proof.
  revert s. induction fuel as [|fuel IH]; intros s; [reflexivity|].
  cbn [drain_loop_with drain_loop]. destruct (c_buffer s) as [|[d|] rest]; [reflexivity| |];
    destruct (c_paused s); try reflexivity.
  apply IH.
Qed.

Lemma emit_to_silent (pauses : listeners) (s : ctl) (ev : event) :
  pauses ev = false -> emit_to pauses s ev = emit s ev.
Proof. intros H. unfold emit_to. by rewrite H. Qed.

Lemma emit_to_pausing (pauses : listeners) (s : ctl) (ev : event) :
  pauses ev = true -> emit_to pauses s ev = pause (emit s ev).
Proof. intros H. unfold emit_to. by rewrite H. Qed.

Lemma drain_loop_with_data (pauses : listeners) (ds : list jsobj) (fuel : nat) (s : ctl) :
  c_buffer s = map Some ds -> c_paused s = false -> (length ds <= fuel)%nat ->
  Forall (fun d => pauses (EvData d) = false) ds ->
  c_buffer (drain_loop_with pauses fuel s) = [] /\
  c_paused (drain_loop_with pauses fuel s) = false /\
  c_events (drain_loop_with pauses fuel s) = c_events s ++ map EvData ds.
Proof.
  revert fuel s. induction ds as [|d ds IH]; intros fuel s Hb Hp Hf Hl.
  - destruct fuel; cbn [drain_loop_with]; rewrite ?Hb; simpl; rewrite ?app_nil_r; auto.
  - inversion Hl as [|? ? Hd Hl']; subst.
    destruct fuel as [|fuel]; [simpl in Hf; lia|].
    cbn [drain_loop_with]. rewrite Hb. cbn [map]. rewrite Hp.
    rewrite (emit_to_silent _ _ _ Hd).
    destruct (IH fuel (emit (set_buffer s (map Some ds)) (EvData d))) as (H1 & H2 & H3);
      [reflexivity|exact Hp|simpl in Hf; lia|exact Hl'|].
    repeat split; try assumption. rewrite H3. simpl. by rewrite <- app_assoc.
Qed.

Lemma drain_loop_with_paused (pauses : listeners) (fuel : nat) (s : ctl) :
  c_paused s = true -> drain_loop_with pauses fuel s = s.
Proof.
  intros Hp. destruct fuel as [|fuel]; [reflexivity|]. cbn [drain_loop_with].
  destruct (c_buffer s); [reflexivity|]. by rewrite Hp.
Qed.

Lemma drain_loop_with_pausing (pauses : listeners) (ds : list jsobj) (d : jsobj)
    (rest : list (option jsobj)) (fuel : nat) (s : ctl) :
  c_buffer s = map Some ds ++ Some d :: rest -> c_paused s = false -> (length ds < fuel)%nat ->
  Forall (fun d => pauses (EvData d) = false) ds -> pauses (EvData d) = true ->
  c_buffer (drain_loop_with pauses fuel s) = rest /\
  c_paused (drain_loop_with pauses fuel s) = true /\
  c_events (drain_loop_with pauses fuel s) = c_events s ++ map EvData ds ++ [EvData d; EvPause].
Proof.
  revert fuel s. induction ds as [|d0 ds IH]; intros fuel s Hb Hp Hf Hl Hd.
  - destruct fuel as [|fuel]; [simpl in Hf; lia|].
    cbn [drain_loop_with]. rewrite Hb. cbn [map app]. rewrite Hp.
    rewrite (emit_to_pausing _ _ _ Hd), drain_loop_with_paused.
    2:{ unfold pause. cbn [c_paused emit set_buffer]. rewrite Hp. reflexivity. }
    unfold pause. cbn [c_paused emit set_buffer]. rewrite Hp.
    cbn [c_buffer c_paused c_events emit set_paused set_buffer]. repeat split. by rewrite <- app_assoc.
  - inversion Hl as [|? ? Hd0 Hl']; subst.
    destruct fuel as [|fuel]; [simpl in Hf; lia|].
    cbn [drain_loop_with]. rewrite Hb. cbn [map app]. rewrite Hp.
    rewrite (emit_to_silent _ _ _ Hd0).
    destruct (IH fuel (emit (set_buffer s (map Some ds ++ Some d :: rest)) (EvData d0)))
      as (H1 & H2 & H3); [reflexivity|exact Hp|simpl in Hf; lia|exact Hl'|exact Hd|].
    repeat split; try assumption. rewrite H3. simpl. by rewrite <- app_assoc.
Qed.

(** [resume] over a buffer of snapshots whose "data" listeners do not
    pause: whether or not the channel was paused, it unpauses, delivers
    every buffered snapshot in order, empties the buffer, then emits one
    "drain" event; the channel ends unpaused unless the "drain" listener
    itself pauses it. *)
Theorem resume_flushes (pauses : listeners) (s : ctl) (ds : list jsobj) :
  c_buffer s = map Some ds ->
  Forall (fun d => pauses (EvData d) = false) ds ->
  c_buffer (resume pauses s) = [] /\
  c_paused (resume pauses s) = pauses EvDrain /\
  c_events (resume pauses s) =
    c_events s ++ map EvData ds ++ [EvDrain] ++ (if pauses EvDrain then [EvPause] else []).
Proof.
  intros Hb Hl. unfold resume, drain_with.
  destruct (drain_loop_with_data pauses ds (length (c_buffer (set_paused s false)))
              (set_paused s false)) as (H1 & H2 & H3);
    [exact Hb|reflexivity|cbn [c_buffer set_paused]; rewrite Hb, length_map; lia|exact Hl|].
  set (s1 := drain_loop_with pauses _ _) in *. clearbody s1.
  rewrite H2. destruct (pauses EvDrain) eqn:E.
  - rewrite (emit_to_pausing _ _ _ E). unfold pause.
    cbn [c_paused c_buffer c_events emit set_paused]. rewrite H2.
    cbn [c_paused c_buffer c_events emit set_paused]. rewrite H1, H3.
    repeat split. simpl. by rewrite <- !app_assoc.
  - rewrite (emit_to_silent _ _ _ E).
    cbn [c_paused c_buffer c_events emit set_paused]. rewrite H2, H1, H3.
    repeat split. simpl. by rewrite <- !app_assoc, ?app_nil_r.
Qed.

(** A "data" listener that pauses the channel during [resume]'s drain
    (the guard of line 354): the snapshots up to and including the one it
    was delivered stay emitted, the rest stays buffered, the channel is left
    paused after one "pause" event, and no "drain" event is emitted. *)
Theorem resume_stops_when_paused (pauses : listeners) (s : ctl) (ds : list jsobj) (d : jsobj)
    (rest : list (option jsobj)) :
  c_buffer s = map Some ds ++ Some d :: rest ->
  Forall (fun d => pauses (EvData d) = false) ds -> pauses (EvData d) = true ->
  c_buffer (resume pauses s) = rest /\ c_paused (resume pauses s) = true /\
  c_events (resume pauses s) = c_events s ++ map EvData ds ++ [EvData d; EvPause].
Proof.
  intros Hb Hl Hd. unfold resume, drain_with.
  destruct (drain_loop_with_pausing pauses ds d rest (length (c_buffer (set_paused s false)))
              (set_paused s false)) as (H1 & H2 & H3);
    [exact Hb|reflexivity|cbn [c_buffer set_paused]; rewrite Hb, length_app, length_map; simpl; lia
    |exact Hl|exact Hd|].
  rewrite H2. auto.
Qed.

(* ------------------------------------------------------------------ *)
(** ** The rotation input stream *)


Lemma rotation_write_all_accums (cs : list jsobj) (a : jsobj) :
  to_num (get (rotation_write_all cs a) "x_rotation_accum")
    == to_num (get a "x_rotation_accum") - sum_q (map (fun c => delta_num (get c "dy")) cs) /\
  to_num (get (rotation_write_all cs a) "y_rotation_accum")
    == to_num (get a "y_rotation_accum") - sum_q (map (fun c => delta_num (get c "dx")) cs) /\
  to_num (get (rotation_write_all cs a) "z_rotation_accum")
    == to_num (get a "z_rotation_accum") + sum_q (map (fun c => delta_num (get c "dz")) cs).
Proof.
  revert a. induction cs as [|c cs IH]; intros a.
  - simpl. repeat split; ring.
  - cbn [rotation_write_all map].
    destruct (IH (rotation_write c a)) as (Hx & Hy & Hz).
    assert (E : get (rotation_write c a) "x_rotation_accum"
                  = JNum (to_num (get a "x_rotation_accum") - delta_num (get c "dy")) /\
                get (rotation_write c a) "y_rotation_accum"
                  = JNum (to_num (get a "y_rotation_accum") - delta_num (get c "dx")) /\
                get (rotation_write c a) "z_rotation_accum"
                  = JNum (to_num (get a "z_rotation_accum") + delta_num (get c "dz"))).
    { unfold rotation_write. cbv zeta. rewrite !get_insert.
      cbn [String.eqb Ascii.eqb Bool.eqb]. repeat split. }
    destruct E as (Ex & Ey & Ez). rewrite Ex in Hx. rewrite Ey in Hy. rewrite Ez in Hz.
    cbn [to_num] in Hx, Hy, Hz. unfold sum_q in *. cbn [fold_right].
    repeat split; [rewrite Hx|rewrite Hy|rewrite Hz]; ring.
Qed.

(** Starting from a fresh stream, the accumulators are the running sums
    of the deltas written: [x = -Σdy], [y = -Σdx], [z = Σdz], a missing or
    falsy delta counting as 0. *)
Theorem rotation_stream_accumulates (a : jsobj) (cs : list jsobj) :
  to_num (get (rotation_write_all cs (init_accums a)) "x_rotation_accum")
    == - sum_q (map (fun c => delta_num (get c "dy")) cs) /\
  to_num (get (rotation_write_all cs (init_accums a)) "y_rotation_accum")
    == - sum_q (map (fun c => delta_num (get c "dx")) cs) /\
  to_num (get (rotation_write_all cs (init_accums a)) "z_rotation_accum")
    == sum_q (map (fun c => delta_num (get c "dz")) cs).
Proof.
  destruct (rotation_write_all_accums cs (init_accums a)) as (Hx & Hy & Hz).
  unfold init_accums in Hx, Hy, Hz. rewrite !get_insert in Hx, Hy, Hz.
  cbn [String.eqb Ascii.eqb Bool.eqb to_num] in Hx, Hy, Hz.
  repeat split; [rewrite Hx|rewrite Hy|rewrite Hz]; ring.
Qed.

(* ------------------------------------------------------------------ *)
(** ** The rules of [validateAction] *)

Lemma validateAction_rules (c : jsobj) :
  validateAction c = rule_moveto (rule_absolute (rule_left (rule_forward (rule_rotate c)))).
Proof. reflexivity. Qed.

Lemma tr_get (a b : jsobj) (k : string) : get a k = get b k -> tr a k = tr b k.
Proof. unfold tr. by intros ->. Qed.

Lemma rule_rotate_get (a : jsobj) (k : string) :
  k <> "rotate" -> get (rule_rotate a) k = get a k.
Proof. intros. unfold rule_rotate. destruct (_ && _); [|done]. by apply get_insert_ne. Qed.

Lemma rule_forward_get (a : jsobj) (k : string) :
  k <> "backward" -> get (rule_forward a) k = get a k.
Proof. intros. unfold rule_forward. destruct (_ && _); [|done]. by apply get_insert_ne. Qed.

Lemma rule_left_get (a : jsobj) (k : string) :
  k <> "right" -> get (rule_left a) k = get a k.
Proof. intros. unfold rule_left. destruct (_ && _); [|done]. by apply get_insert_ne. Qed.

Lemma rule_absolute_get (a : jsobj) (k : string) :
  k <> "forward" -> k <> "backward" -> k <> "left" -> k <> "right" ->
  get (rule_absolute a) k = get a k.
Proof.
  intros. unfold rule_absolute. destruct (_ && _); [|done].
  by rewrite !get_insert_ne by congruence.
Qed.

Lemma rule_moveto_get (a : jsobj) (k : string) :
  k <> "translateX" -> k <> "translateY" -> get (rule_moveto a) k = get a k.
Proof.
  intros. unfold rule_moveto. destruct (_ && _); [|done].
  by rewrite !get_insert_ne by congruence.
Qed.

Lemma rule_absolute_skip (a : jsobj) :
  (tr a "translateX" || tr a "translateY" || tr a "moveto") = false -> rule_absolute a = a.
Proof. intros H. unfold rule_absolute. by rewrite H. Qed.

(** After the absolute-over-relative rule, a truthy [moveto] leaves no
    truthy relative intent. *)
Lemma rule_absolute_moveto (a : jsobj) (k : string) :
  tr a "moveto" = true ->
  k = "forward" \/ k = "backward" \/ k = "left" \/ k = "right" ->
  tr (rule_absolute a) k = false.
Proof.
  intros Hm Hk. unfold rule_absolute. rewrite Hm, !orb_true_r. simpl.
  destruct (tr a "forward" || tr a "backward" || tr a "left" || tr a "right") eqn:E.
  - unfold tr. destruct Hk as [-> | [-> | [-> | ->]]]; rewrite !get_insert; reflexivity.
  - rewrite !orb_false_iff in E. destruct E as [[[E1 E2] E3] E4].
    destruct Hk as [-> | [-> | [-> | ->]]]; assumption.
Qed.

Lemma truthy_num_false (q : Q) : truthy (JNum q) = false -> q == 0.
Proof. simpl. intros H. apply negb_false_iff, Qeq_bool_iff in H. exact H. Qed.

Section EndPosition.

Context {AV : Avatar}.

Lemma getEndPosition_ext (p : vec) (a b : jsobj) :
  get a "forward" = get b "forward" -> get a "left" = get b "left" ->
  get a "translateZ" = get b "translateZ" -> get a "translateX" = get b "translateX" ->
  getEndPosition p a = getEndPosition p b.
Proof. intros E1 E2 E3 E4. unfold getEndPosition, tr. by rewrite E1, E2, E3, E4. Qed.

(** [_endpos] is computed from the command as it stands after the
    conflict rules and the moveto/backward/right rewrites. *)
Lemma normalise_endpos (t : host) (c : jsobj) :
  get (normalise t c) "_endpos" =
  JObj (getEndPosition (pos t) (resolve_right (resolve_backward (resolve_moveto t (validateAction c))))).
Proof.
  unfold normalise. prop_simp. f_equal. apply getEndPosition_ext; by prop_simp.
Qed.

End EndPosition.

Lemma resolve_moveto_skip (t : host) (a : jsobj) :
  tr a "moveto" = false -> resolve_moveto t a = a.
Proof. unfold resolve_moveto. by intros ->. Qed.

Lemma resolve_backward_skip (a : jsobj) :
  tr a "backward" = false -> resolve_backward a = a.
Proof. unfold resolve_backward. by intros ->. Qed.

Lemma resolve_right_skip (a : jsobj) :
  tr a "right" = false -> resolve_right a = a.
Proof. unfold resolve_right. by intros ->. Qed.

Ltac rule_gets :=
  repeat first
    [ rewrite rule_moveto_get by congruence
    | rewrite rule_absolute_get by congruence
    | rewrite rule_left_get by congruence
    | rewrite rule_forward_get by congruence
    | rewrite rule_rotate_get by congruence ].

(** With no absolute intent, only the rotation rule and the two
    relative-precedence rules act. *)
Lemma validate_relative (c : jsobj) :
  tr c "translateX" = false -> tr c "translateY" = false -> tr c "moveto" = false ->
  validateAction c = rule_left (rule_forward (rule_rotate c)).
Proof.
  intros HX HY HM. rewrite validateAction_rules.
  unfold tr in HX, HY, HM.
  rewrite rule_absolute_skip.
  - unfold rule_moveto, tr. rule_gets. by rewrite HX, HY.
  - unfold tr. rule_gets. by rewrite HX, HY, HM.
Qed.

Lemma rule_forward_backward (a : jsobj) :
  get (rule_forward a) "backward" =
  if tr a "forward" && tr a "backward" then JBool false else get a "backward".
Proof. unfold rule_forward. destruct (_ && _); [apply get_insert|done]. Qed.

Lemma rule_left_right (a : jsobj) :
  get (rule_left a) "right" =
  if tr a "left" && tr a "right" then JBool false else get a "right".
Proof. unfold rule_left. destruct (_ && _); [apply get_insert|done]. Qed.

Lemma rule_rotate_rotate (a : jsobj) :
  get (rule_rotate a) "rotate" =
  if tr a "rotate" && (tr a "forward" || tr a "backward" || tr a "left"
      || tr a "right" || tr a "translateX" || tr a "translateY" || tr a "moveto")
  then JBool false else get a "rotate".
Proof. unfold rule_rotate. destruct (_ && _); [apply get_insert|done]. Qed.

Lemma truthy_neg (b : Q) : ~ b == 0 -> truthy (JNum (- b)) = true.
Proof.
  intros Hb. simpl. destruct (Qeq_bool (- b) 0) eqn:E; [|reflexivity].
  apply Qeq_bool_iff in E. exfalso. apply Hb.
  rewrite <- (Qopp_involutive b), E. reflexivity.
Qed.

Lemma truthy_neg' (b : Q) : ~ b == 0 -> truthy (JNum b) = true.
Proof.
  intros Hb. simpl. destruct (Qeq_bool b 0) eqn:E; [|reflexivity].
  apply Qeq_bool_iff in E. contradiction.
Qed.

Section Relative.

Context {AV : Avatar}.

Variables (t : host) (c : jsobj).
Hypotheses (HX : tr c "translateX" = false) (HY : tr c "translateY" = false)
  (HM : tr c "moveto" = false).

Lemma relative_moveto : tr (validateAction c) "moveto" = false.
Proof.
  rewrite (validate_relative c HX HY HM). unfold tr in *. rule_gets. exact HM.
Qed.

Lemma relative_forward : get (validateAction c) "forward" = get c "forward".
Proof. rewrite (validate_relative c HX HY HM). by rule_gets. Qed.

Lemma relative_left : get (validateAction c) "left" = get c "left".
Proof. rewrite (validate_relative c HX HY HM). by rule_gets. Qed.

Lemma relative_backward :
  get (validateAction c) "backward" =
  if tr c "forward" && tr c "backward" then JBool false else get c "backward".
Proof.
  rewrite (validate_relative c HX HY HM). rewrite rule_left_get by congruence.
  rewrite rule_forward_backward. unfold tr. by rule_gets.
Qed.

Lemma relative_right :
  get (validateAction c) "right" =
  if tr c "left" && tr c "right" then JBool false else get c "right".
Proof.
  rewrite (validate_relative c HX HY HM). rewrite rule_left_right.
  unfold tr. by rule_gets.
Qed.

(** validateAction, lines 213-216, and setupAction, lines 167-170 and
    182: with no absolute intent, a truthy [forward] wins over
    [backward], which ends up falsy, and [forward] is the relative
    z move. *)
Theorem normalise_forward_over_backward :
  tr c "forward" = true ->
  get (normalise t c) "forward" = get c "forward" /\
  tr (normalise t c) "backward" = false /\
  get (normalise t c) "_moverel_z" = get c "forward".
Proof.
  intros HF.
  assert (HB : tr (validateAction c) "backward" = false).
  { unfold tr at 1. rewrite relative_backward, HF. simpl.
    destruct (tr c "backward") eqn:E; [reflexivity|exact E]. }
  unfold normalise, tr at 1. prop_simp.
  rewrite (resolve_moveto_skip t _ relative_moveto), (resolve_backward_skip _ HB).
  rewrite !resolve_right_get by congruence. rewrite relative_forward.
  unfold tr in HF, HB. unfold js_or. rewrite HF. auto.
Qed.

(** setupAction, lines 167-170 and 182: a lone non-zero [backward] [b]
    becomes [forward = -b] with [backward] cleared, so the relative z move
    is [-b]. *)
Theorem normalise_backward_negated (b : Q) :
  tr c "forward" = false -> get c "backward" = JNum b -> ~ b == 0 ->
  get (normalise t c) "forward" = JNum (- b) /\
  get (normalise t c) "backward" = JBool false /\
  get (normalise t c) "_moverel_z" = JNum (- b).
Proof.
  intros HF Hb Hnz.
  assert (HB : get (validateAction c) "backward" = JNum b).
  { rewrite relative_backward, HF. exact Hb. }
  unfold normalise. prop_simp.
  rewrite (resolve_moveto_skip t _ relative_moveto).
  rewrite !resolve_right_get by congruence.
  unfold resolve_backward, tr. rewrite HB, (truthy_neg' b Hnz).
  rewrite !get_insert. cbn [String.eqb Ascii.eqb Bool.eqb].
  unfold js_or, js_neg. cbn [to_num]. rewrite (truthy_neg b Hnz). auto.
Qed.

(** validateAction, lines 217-220, and setupAction, lines 173-176 and
    181: with no absolute intent, a truthy [left] wins over [right], which
    ends up falsy, and [left] is the relative x move. *)
Theorem normalise_left_over_right :
  tr c "left" = true ->
  get (normalise t c) "left" = get c "left" /\
  tr (normalise t c) "right" = false /\
  get (normalise t c) "_moverel_x" = get c "left".
Proof.
  intros HL.
  assert (HR : tr (validateAction c) "right" = false).
  { unfold tr at 1. rewrite relative_right, HL. simpl.
    destruct (tr c "right") eqn:E; [reflexivity|exact E]. }
  assert (HR' : tr (resolve_backward (resolve_moveto t (validateAction c))) "right" = false).
  { unfold tr in *. rewrite resolve_backward_get, resolve_moveto_get by congruence. exact HR. }
  unfold normalise, tr at 1. prop_simp. rewrite (resolve_right_skip _ HR').
  rewrite !resolve_backward_get, !resolve_moveto_get by congruence.
  rewrite relative_left. unfold tr in HL, HR. unfold js_or, tr. rewrite HL.
  auto.
Qed.

(** setupAction, lines 173-176 and 181: a lone non-zero [right] [r]
    becomes [left = -r] with [right] cleared, so the relative x move is
    [-r]. *)
Theorem normalise_right_negated (r : Q) :
  tr c "left" = false -> get c "right" = JNum r -> ~ r == 0 ->
  get (normalise t c) "left" = JNum (- r) /\
  get (normalise t c) "right" = JBool false /\
  get (normalise t c) "_moverel_x" = JNum (- r).
Proof.
  intros HL Hr Hnz.
  assert (HR : get (resolve_backward (resolve_moveto t (validateAction c))) "right" = JNum r).
  { rewrite resolve_backward_get, resolve_moveto_get by congruence.
    rewrite relative_right, HL. exact Hr. }
  unfold normalise. prop_simp.
  unfold resolve_right at 1 2 3. unfold tr at 1 2 3. rewrite HR.
  rewrite (truthy_neg' r Hnz).
  rewrite !get_insert. cbn [String.eqb Ascii.eqb Bool.eqb].
  unfold js_or, js_neg. cbn [to_num]. rewrite (truthy_neg r Hnz). auto.
Qed.

End Relative.

Lemma Qsub_0_eq (a b : Q) : b - a == 0 -> a == b.
Proof. intros H. rewrite <- (Qplus_0_l a), <- H. ring. Qed.

Section Absolute.

Context {AV : Avatar}.

(** validateAction, lines 209-212, and setupAction, lines 180 and 187: a
    rotation requested together with any movement is dropped; the action
    keeps [rotate = 0] and ends at the starting heading. *)
Theorem normalise_rotation_dropped (t : host) (c : jsobj) :
  tr c "rotate" = true ->
  (tr c "forward" || tr c "backward" || tr c "left" || tr c "right"
   || tr c "translateX" || tr c "translateY" || tr c "moveto") = true ->
  get (normalise t c) "rotate" = JNum 0 /\
  get (normalise t c) "_endrotate" = JNum (rot_y t + 0).
Proof.
  intros Hr Hm.
  assert (HV : get (validateAction c) "rotate" = JBool false).
  { rewrite validateAction_rules. rule_gets. rewrite rule_rotate_rotate, Hr, Hm.
    reflexivity. }
  unfold normalise. prop_simp.
  rewrite !resolve_right_get, !resolve_backward_get, !resolve_moveto_get by congruence.
  rewrite HV. split; reflexivity.
Qed.

(** Whatever the command, the end heading is the start heading plus the
    normalised [rotate]. *)
Lemma normalise_endrotate (t : host) (c : jsobj) :
  get (normalise t c) "_endrotate" = JNum (rot_y t + to_num (get (normalise t c) "rotate")).
Proof. unfold normalise. by prop_simp. Qed.

(** setupAction, lines 157-164 with getEndPosition, and validateAction,
    lines 217-226: a [moveto] point [m] overrides every relative and
    [translateX] intent.  The end position keeps the starting height; its
    x is the start x plus the difference [m.x - start.x] when that
    difference is nonzero (two successive roundings in floating point, not
    a copy of [m.x]), and likewise for z; the heading is unchanged. *)
Theorem normalise_moveto_endpos (t : host) (c : jsobj) (m : vec) :
  get c "moveto" = JObj m ->
  vx (get_vec (normalise t c) "_endpos") =
    (if truthy (JNum (vx m - vx (pos t))) then vx (pos t) + (vx m - vx (pos t)) else vx (pos t)) /\
  vz (get_vec (normalise t c) "_endpos") =
    (if truthy (JNum (vz m - vz (pos t))) then vz (pos t) + (vz m - vz (pos t)) else vz (pos t)) /\
  vy (get_vec (normalise t c) "_endpos") = vy (pos t) /\
  get (normalise t c) "_endrotate" = JNum (rot_y t + 0).
Proof.
  intros Hm.
  set (A3 := rule_left (rule_forward (rule_rotate c))).
  assert (HA3 : tr A3 "moveto" = true).
  { unfold A3, tr. rule_gets. by rewrite Hm. }
  assert (Hrel : forall k, k = "forward" \/ k = "backward" \/ k = "left" \/ k = "right" ->
                 tr (validateAction c) k = false).
  { intros k Hk. rewrite validateAction_rules. fold A3.
    rewrite <- (rule_absolute_moveto A3 k HA3 Hk). apply tr_get.
    destruct Hk as [-> | [-> | [-> | ->]]]; by rewrite rule_moveto_get. }
  assert (HVm : get (validateAction c) "moveto" = JObj m).
  { rewrite validateAction_rules. rule_gets. exact Hm. }
  set (R1 := resolve_moveto t (validateAction c)).
  assert (E1 : R1 = <["translateX" := JNum (vx m - vx (pos t))]>
                    (<["translateZ" := JNum (vz m - vz (pos t))]> (validateAction c))).
  { unfold R1, resolve_moveto, tr. by rewrite HVm. }
  assert (HRb : tr R1 "backward" = false).
  { unfold tr. rewrite E1, !get_insert_ne by congruence. apply Hrel. auto. }
  assert (HRr : tr R1 "right" = false).
  { unfold tr. rewrite E1, !get_insert_ne by congruence. apply Hrel. auto. }
  assert (HRf : tr R1 "forward" = false).
  { unfold tr. rewrite E1, !get_insert_ne by congruence. apply Hrel. auto. }
  assert (HRl : tr R1 "left" = false).
  { unfold tr. rewrite E1, !get_insert_ne by congruence. apply Hrel. auto. }
  assert (HVr : truthy (get (validateAction c) "rotate") = false).
  { rewrite validateAction_rules. rule_gets. rewrite rule_rotate_rotate.
    assert (Hm' : tr c "moveto" = true) by (unfold tr; rewrite Hm; reflexivity).
    rewrite Hm', !orb_true_r, andb_true_r.
    destruct (tr c "rotate") eqn:E; [reflexivity|exact E]. }
  assert (Hrot : get (normalise t c) "_endrotate" = JNum (rot_y t + 0)).
  { rewrite normalise_endrotate. unfold normalise. prop_simp.
    rewrite !resolve_right_get, !resolve_backward_get, !resolve_moveto_get by congruence.
    unfold js_or. rewrite HVr. reflexivity. }
  unfold get_vec. rewrite normalise_endpos. fold R1.
  rewrite (resolve_backward_skip _ HRb), (resolve_right_skip _ HRr).
  unfold getEndPosition. rewrite HRf, HRl.
  unfold tr. rewrite ?E1, !get_insert. cbn [String.eqb Ascii.eqb Bool.eqb to_num].
  refine (conj _ (conj _ (conj _ Hrot))).
  all: destruct (truthy (JNum (vz m - vz (pos t))));
       destruct (truthy (JNum (vx m - vx (pos t))));
       reflexivity.
Qed.

End Absolute.

(* ------------------------------------------------------------------ *)
(** ** Bounds enforcement *)

Lemma clamp_step_keeps (b : jsobj) (r : vec -> vec) test (coord' coord : vec -> Q)
    (upd : vec -> Q -> vec) (k : string) (p : vec) :
  (forall p v, coord' (upd p v) = coord' p) ->
  coord' (clamp_step b r test coord upd k p) = coord' p.
Proof. intros Hu. unfold clamp_step. destruct (test _ _); [apply Hu|reflexivity]. Qed.

Lemma clamp_lo_sound (b : jsobj) (coord : vec -> Q) (upd : vec -> Q -> vec)
    (k : string) (lo : Q) (p : vec) :
  get b k = JNum lo -> (forall p v, coord (upd p v) = v) ->
  lo <= coord (clamp_step b (fun p => p) js_lt coord upd k p).
Proof.
  intros Hk Hu. unfold clamp_step. rewrite Hk. cbn [js_lt to_num]. unfold Qlt_bool.
  destruct (Qle_bool lo (coord p)) eqn:E; cbn [negb].
  - by apply Qle_bool_iff.
  - rewrite Hu. apply Qle_refl.
Qed.

Lemma clamp_hi_sound (b : jsobj) (coord : vec -> Q) (upd : vec -> Q -> vec)
    (k : string) (lo hi : Q) (p : vec) :
  get b k = JNum hi -> (forall p v, coord (upd p v) = v) -> lo <= hi -> lo <= coord p ->
  lo <= coord (clamp_step b (fun p => p) js_gt coord upd k p) <= hi.
Proof.
  intros Hk Hu Hlh Hlo. unfold clamp_step. rewrite Hk. cbn [js_gt to_num]. unfold Qlt_bool.
  destruct (Qle_bool (coord p) hi) eqn:E; cbn [negb].
  - split; [exact Hlo|]. by apply Qle_bool_iff.
  - rewrite Hu. split; [exact Hlh|apply Qle_refl].
Qed.

(** setPosition, lines 251-271, on the live position (the call at the end
    of every interpolation frame): with numeric bounds [lo <= hi] on each
    axis, the target ends inside the box. *)
Theorem setPosition_live_in_box (b : jsobj) (t : host) (lx hx ly hy lz hz : Q) :
  get b "minx" = JNum lx -> get b "maxx" = JNum hx ->
  get b "miny" = JNum ly -> get b "maxy" = JNum hy ->
  get b "minz" = JNum lz -> get b "maxz" = JNum hz ->
  lx <= hx -> ly <= hy -> lz <= hz ->
  (lx <= vx (pos (setPosition_live b t)) <= hx) /\
  (ly <= vy (pos (setPosition_live b t)) <= hy) /\
  (lz <= vz (pos (setPosition_live b t)) <= hz).
Proof.
  intros H1 H2 H3 H4 H5 H6 Hx Hy Hz.
  unfold setPosition_live, setPosition, setPosition_pos. cbn [pos with_pos].
  repeat split;
    repeat (rewrite clamp_step_keeps by (intros; reflexivity));
    first [ apply (clamp_hi_sound b _ _ _ lx hx); try done; try (intros; reflexivity);
            apply (clamp_lo_sound b _ _ _ lx); try done; intros; reflexivity
          | apply (clamp_hi_sound b _ _ _ ly hy); try done; try (intros; reflexivity);
            apply (clamp_lo_sound b _ _ _ ly); try done; intros; reflexivity
          | apply (clamp_hi_sound b _ _ _ lz hz); try done; try (intros; reflexivity);
            apply (clamp_lo_sound b _ _ _ lz); try done; intros; reflexivity ].
Qed.

(** setMovementBounds with no argument, lines 40-42: the bounds become an
    empty object, every comparison against an absent bound is false, and
    [setPosition] no longer moves the target, whatever it reads. *)
Theorem setMovementBounds_unbounded (s : ctl) (read : vec -> vec) (t : host) :
  setPosition (c_bounds (setMovementBounds None s)) read t = t.
Proof. destruct t. reflexivity. Qed.

(* ------------------------------------------------------------------ *)
(** ** The tick lifecycle *)

Lemma setPosition_physics (b : jsobj) (read : vec -> vec) (t : host) :
  velocity (setPosition b read t) = velocity t /\
  acceleration (setPosition b read t) = acceleration t /\
  forces (setPosition b read t) = forces t /\
  rot_y (setPosition b read t) = rot_y t.
Proof. repeat split. Qed.

(** With every bound absent or admitting the point, [setPosition] toward
    that point changes nothing. *)
Lemma setPosition_to_admitted (b : jsobj) (e : vec) (t : host) :
  bounds_admit b e -> setPosition_to b e t = t.
Proof.
  intros (H1 & H2 & H3 & H4 & H5 & H6).
  unfold setPosition_to, setPosition, setPosition_pos, clamp_step.
  rewrite (lower_admits_lt _ _ H1), (upper_admits_gt _ _ H2), (lower_admits_lt _ _ H3),
    (upper_admits_gt _ _ H4), (lower_admits_lt _ _ H5), (upper_admits_gt _ _ H6).
  destruct t. reflexivity.
Qed.

Section Lifecycle.

Context {AV : Avatar}.

(** tick, lines 44-53, with setupAction, lines 139-148: with no current
    action, a tick does nothing when the queue is empty or the target is
    not resting on the ground. *)
Theorem tick_idle_noop (dt : Q) (s : ctl) :
  c_action s = None ->
  (c_queue s = [] \/ exists t, c_target s = Some t /\ resting_y t = false) ->
  tick dt s = s.
Proof.
  intros Ha Hq.
  assert (Hs : setupAction s = s).
  { unfold setupAction. rewrite Ha.
    destruct Hq as [-> | (t & -> & Hr)].
    - by destruct (c_target s).
    - destruct (c_queue s); [reflexivity|]. by rewrite Hr. }
  unfold tick. destruct (c_target s); [|reflexivity].
  rewrite Hs. unfold tick_step. by rewrite Ha.
Qed.

(** tick on an idle controller with a queued command and a grounded
    target (setupAction, lines 150-197, then tick, lines 55-79): the
    command leaves the queue, gravity is removed and velocity and
    acceleration are zeroed; if the first frame already reaches the
    duration, the action ends at once and gravity is put back. *)
Theorem tick_activation (dt : Q) (s : ctl) (c : jsobj) (rest : list jsobj) (t : host) :
  c_action s = None -> c_queue s = c :: rest -> c_target s = Some t -> resting_y t = true ->
  let fin := Qle_bool (norm_duration c) (0 + dt) in
  c_queue (tick dt s) = rest /\
  (c_action (tick dt s) = None <-> fin = true) /\
  exists t', c_target (tick dt s) = Some t' /\
    velocity t' = vzero /\ acceleration t' = vzero /\
    forces t' = remove_first (c_gravity s) (forces t) ++ (if fin then [c_gravity s] else []).
Proof.
  intros Ha Hq Ht Hr fin.
  unfold tick. rewrite Ht, (setupAction_idle s c rest t Ha Hq Ht Hr).
  unfold tick_step. cbn [c_action c_target set_target set_action set_queue].
  cbv zeta. rewrite normalise_elapsed. cbn [to_num].
  rewrite (get_insert _ "_elapsed" "duration"), (get_insert _ "_elapsed" "_elapsed").
  cbn [String.eqb Ascii.eqb Bool.eqb to_num].
  rewrite normalise_duration. fold (norm_duration c). fold fin.
  destruct fin; cbn [c_action c_target c_queue set_target set_action set_queue].
  - split; [reflexivity|]. split; [tauto|].
    eexists. split; [reflexivity|]. repeat split.
  - split; [reflexivity|]. split; [split; discriminate|].
    eexists. split; [reflexivity|]. repeat split. cbn. by rewrite app_nil_r.
Qed.

(** tick, lines 71-79, on a running action whose duration is reached:
    the action is cleared, the queue is untouched, the heading is set to
    [_endrotate], velocity and acceleration are zeroed and gravity is put
    back.  The position is not moved to [_endpos]: [setPosition] is given
    [_endpos] only as the point to test against the bounds, and writes a
    bound into the live position for each bound [_endpos] violates; when
    the bounds admit [_endpos] the position stays where the previous frame
    put it. *)
Theorem tick_completion (dt : Q) (s : ctl) (a : jsobj) (t : host) (ep : vec) (r : Q) :
  c_action s = Some a -> c_target s = Some t ->
  get a "_endpos" = JObj ep -> get a "_endrotate" = JNum r ->
  Qle_bool (to_num (get a "duration")) (to_num (get a "_elapsed") + dt) = true ->
  c_action (tick dt s) = None /\ c_queue (tick dt s) = c_queue s /\
  exists t', c_target (tick dt s) = Some t' /\
    rot_y t' = r /\ velocity t' = vzero /\ acceleration t' = vzero /\
    forces t' = forces t ++ [c_gravity s] /\ resting_y t' = resting_y t /\
    pos t' = pos (setPosition_to (c_bounds s) ep t) /\
    (bounds_admit (c_bounds s) ep -> pos t' = pos t).
Proof.
  intros Ha Ht Hep Hr Hd.
  unfold tick. rewrite Ht, (setupAction_active s a Ha).
  unfold tick_step. rewrite Ha, Ht. cbv zeta.
  rewrite (get_insert _ "_elapsed" "duration"), (get_insert _ "_elapsed" "_elapsed").
  cbn [String.eqb Ascii.eqb Bool.eqb to_num].
  rewrite Hd.
  assert (Ee : forall v, get_vec (<["_elapsed" := v]> a) "_endpos" = ep).
  { intros v. unfold get_vec. rewrite get_insert_ne by congruence. by rewrite Hep. }
  assert (Er : forall v, to_num (get (<["_elapsed" := v]> a) "_endrotate") = r).
  { intros v. rewrite get_insert_ne by congruence. by rewrite Hr. }
  rewrite !Ee, !Er.
  split; [reflexivity|]. split; [reflexivity|].
  eexists. split; [reflexivity|].
  repeat split. intros Hb. by rewrite (setPosition_to_admitted _ _ _ Hb).
Qed.

End Lifecycle.

(* ------------------------------------------------------------------ *)
(** ** Interpolation over running frames *)



Section Linear.

Context {AV : Avatar}.

Lemma interpolate_x (a : jsobj) (dt : Q) (t : host) :
  tr a "forward" = false -> tr a "left" = false ->
  vx (pos (interpolate a dt t)) =
  if tr a "translateX"
  then vx (pos t) + to_num (get a "translateX") / to_num (get a "duration") * dt
  else vx (pos t).
Proof.
  intros Hf Hl. unfold interpolate. rewrite Hf, Hl.
  by destruct (tr a "translateZ"), (tr a "translateX").
Qed.

Lemma interpolate_rot (a : jsobj) (dt : Q) (t : host) :
  rot_y (interpolate a dt t) =
  if tr a "rotate"
  then rot_y t + to_num (get a "rotate") / to_num (get a "duration") * dt
  else rot_y t.
Proof. reflexivity. Qed.

Lemma setPosition_live_x (b : jsobj) (t : host) :
  get b "minx" = JUndef -> get b "maxx" = JUndef ->
  vx (pos (setPosition_live b t)) = vx (pos t).
Proof.
  intros H1 H2. unfold setPosition_live, setPosition, setPosition_pos. cbn [pos with_pos].
  repeat (rewrite clamp_step_keeps by (intros; reflexivity)).
  unfold clamp_step. by rewrite H1, H2.
Qed.

Lemma step_linear (q X D dt : Q) (b : bool) :
  (b = false -> X == 0) ->
  (if b then q + X / D * dt else q) == q + X / D * dt.
Proof.
  destruct b; intros H; [reflexivity|]. rewrite (H eq_refl). unfold Qdiv. ring.
Qed.

Lemma tr_num_false (a : jsobj) (k : string) (X : Q) :
  get a k = JNum X -> tr a k = false -> X == 0.
Proof. unfold tr. intros ->. apply truthy_num_false. Qed.

(** tick, lines 55-126, over running frames: while the elapsed time stays
    below the duration, a prepared action (its [_startpos] a point and its
    [height] a number, as [setupAction] leaves them) with [translateX = X]
    and [rotate = R] and no relative move advances x and the heading
    linearly in the total time, by [X/D] and [R/D] per unit, when no x
    bound is set. *)
Theorem ticks_linear (dts : list Q) :
  forall (s : ctl) (t : host) (a : jsobj) (X R D e : Q) (sp : vec) (H : Q),
  c_target s = Some t -> c_action s = Some a ->
  get a "translateX" = JNum X -> get a "rotate" = JNum R ->
  get a "duration" = JNum D -> get a "_elapsed" = JNum e ->
  get a "_startpos" = JObj sp -> get a "height" = JNum H ->
  tr a "forward" = false -> tr a "left" = false ->
  get (c_bounds s) "minx" = JUndef -> get (c_bounds s) "maxx" = JUndef ->
  Forall (fun d => 0 <= d) dts -> e + sum_q dts < D ->
  exists t' a', c_target (ticks dts s) = Some t' /\ c_action (ticks dts s) = Some a' /\
    vx (pos t') == vx (pos t) + X / D * sum_q dts /\
    rot_y t' == rot_y t + R / D * sum_q dts /\
    to_num (get a' "_elapsed") == e + sum_q dts.
Proof.
  induction dts as [|dt dts IH];
    intros s t a X R D e sp H Ht Ha HX HR HD He Hsp HH Hf Hl Hmin Hmax Hnn Hlt.
  - exists t, a. cbn [ticks]. rewrite He. unfold sum_q. cbn [fold_right to_num].
    repeat split; try assumption; ring.
  - inversion Hnn as [|? ? Hdt Hrest]; subst.
    pose proof (sum_q_nonneg dts Hrest) as Hs.
    unfold sum_q in Hlt. cbn [fold_right] in Hlt. fold (sum_q dts) in Hlt.
    set (a1 := <["_elapsed" := JNum (to_num (get a "_elapsed") + dt)]> a).
    assert (G : forall k, k <> "_elapsed" -> get a1 k = get a k).
    { intros k Hk. unfold a1. by apply get_insert_ne. }
    assert (He1 : get a1 "_elapsed" = JNum (e + dt)).
    { unfold a1. rewrite get_insert. cbn [String.eqb Ascii.eqb Bool.eqb]. by rewrite He. }
    assert (Hrun : Qle_bool (to_num (get a1 "duration")) (to_num (get a1 "_elapsed")) = false).
    { rewrite G, HD, He1 by congruence. cbn [to_num]. apply Qle_bool_false.
      apply Qle_lt_trans with (e + dt + sum_q dts); [|by rewrite <- Qplus_assoc].
      rewrite <- (Qplus_0_r (e + dt)) at 1. by apply Qplus_le_compat; [apply Qle_refl|]. }
    set (t1 := setPosition_live (c_bounds s) (interpolate a1 dt t)).
    assert (Hs1 : tick dt s = set_target (set_action s (Some a1)) (Some t1)).
    { unfold tick. rewrite Ht, (setupAction_active s a Ha). unfold tick_step.
      rewrite Ha, Ht. cbv zeta. fold a1. by rewrite Hrun. }
    cbn [ticks]. rewrite Hs1.
    destruct (IH (set_target (set_action s (Some a1)) (Some t1)) t1 a1 X R D (e + dt) sp H)
      as (t' & a' & Ht' & Ha' & Hx' & Hr' & He');
      try reflexivity; try (rewrite G by congruence; assumption); try assumption.
    { unfold tr. rewrite G by congruence. exact Hf. }
    { unfold tr. rewrite G by congruence. exact Hl. }
    { by rewrite <- Qplus_assoc. }
    exists t', a'. repeat split; try assumption.
    + rewrite Hx'. unfold t1. rewrite setPosition_live_x by assumption.
      rewrite interpolate_x by (unfold tr; rewrite G by congruence; assumption).
      rewrite (G "translateX"), (G "duration"), HX, HD by congruence. cbn [to_num].
      rewrite step_linear.
      2:{ intros Hb. apply (tr_num_false a "translateX"); [exact HX|].
          unfold tr in Hb |- *. by rewrite G in Hb by congruence. }
      unfold sum_q. cbn [fold_right]. fold (sum_q dts). unfold Qdiv. ring.
    + rewrite Hr'. unfold t1, setPosition_live, setPosition. cbn [rot_y with_pos].
      rewrite interpolate_rot.
      rewrite (G "rotate"), (G "duration"), HR, HD by congruence. cbn [to_num].
      rewrite step_linear.
      2:{ intros Hb. apply (tr_num_false a "rotate"); [exact HR|].
          unfold tr in Hb |- *. by rewrite G in Hb by congruence. }
      unfold sum_q. cbn [fold_right]. fold (sum_q dts). unfold Qdiv. ring.
    + rewrite He'. unfold sum_q. cbn [fold_right]. fold (sum_q dts). ring.
Qed.

End Linear.

(* ------------------------------------------------------------------ *)
(** ** Command ingestion, from any queue *)

(** write, lines 273-283, repeated: from a queue of at most
    [max_actions + 1] commands, the writes append the first [m] commands in
    order, where [m] is the room left, return [undefined] for them and
    [false] for every later one, and count each later one as dropped. *)
Theorem write_all_appends (cmds : list jsobj) (w : world) :
  (length (c_queue (w_ctl w)) <= S (c_max_actions (w_ctl w)))%nat ->
  let m := (S (c_max_actions (w_ctl w)) - length (c_queue (w_ctl w)))%nat in
  c_queue (w_ctl (fst (write_all cmds w))) = c_queue (w_ctl w) ++ firstn m cmds /\
  numdroppedactions (fst (write_all cmds w)) = (numdroppedactions w + (length cmds - m))%nat /\
  snd (write_all cmds w) = repeat JUndef (Nat.min m (length cmds)) ++ repeat (JBool false) (length cmds - m).
Proof.
  intros Hle m. destruct (write_all_from cmds w Hle) as (H1 & _ & H3 & H4). auto.
Qed.

(* ------------------------------------------------------------------ *)
(** ** Witnesses of the extra properties *)



Lemma resume_flushes_witness :
  let s := buffered (map Some two_snapshots) true in
  c_buffer (resume (fun _ => false) s) = [] /\
  c_paused (resume (fun _ => false) s) = false /\
  c_events (resume (fun _ => false) s) =
    c_events s ++ map EvData two_snapshots ++ [EvDrain] ++ [].
Proof. intros s. apply (resume_flushes (fun _ => false) s two_snapshots); [reflexivity|].
  repeat constructor. Defined.

Lemma resume_stops_when_paused_witness :
  let s := buffered (map Some two_snapshots) true in
  c_buffer (resume pause_on_data s) = map Some (tl two_snapshots) /\
  c_paused (resume pause_on_data s) = true /\
  c_events (resume pause_on_data s) =
    c_events s ++ map EvData [] ++ [EvData (hd (cmd []) two_snapshots); EvPause].
Proof. intros s. apply (resume_stops_when_paused pause_on_data s [] (hd (cmd []) two_snapshots));
  [reflexivity|constructor|reflexivity]. Defined.

Lemma normalise_forward_over_backward_witness :
  get (normalise origin_host fwd_back) "forward" = get fwd_back "forward" /\
  tr (normalise origin_host fwd_back) "backward" = false /\
  get (normalise origin_host fwd_back) "_moverel_z" = get fwd_back "forward".
Proof. apply normalise_forward_over_backward; reflexivity. Defined.

Lemma normalise_backward_negated_witness :
  get (normalise origin_host back_only) "forward" = JNum (Qopp 2) /\
  get (normalise origin_host back_only) "backward" = JBool false /\
  get (normalise origin_host back_only) "_moverel_z" = JNum (Qopp 2).
Proof. apply normalise_backward_negated; try reflexivity; close_concrete. Defined.

Lemma normalise_left_over_right_witness :
  get (normalise origin_host left_right) "left" = get left_right "left" /\
  tr (normalise origin_host left_right) "right" = false /\
  get (normalise origin_host left_right) "_moverel_x" = get left_right "left".
Proof. apply normalise_left_over_right; reflexivity. Defined.

Lemma normalise_right_negated_witness :
  get (normalise origin_host right_only) "left" = JNum (Qopp 3) /\
  get (normalise origin_host right_only) "right" = JBool false /\
  get (normalise origin_host right_only) "_moverel_x" = JNum (Qopp 3).
Proof. apply normalise_right_negated; try reflexivity; close_concrete. Defined.

Lemma normalise_rotation_dropped_witness :
  get (normalise far_host turn_and_step) "rotate" = JNum 0 /\
  get (normalise far_host turn_and_step) "_endrotate" = JNum (rot_y far_host + 0).
Proof. apply normalise_rotation_dropped; reflexivity. Defined.

Lemma normalise_moveto_endpos_witness :
  vx (get_vec (normalise far_host moveto_cmd) "_endpos") =
    (if truthy (JNum (3 - vx (pos far_host))) then vx (pos far_host) + (3 - vx (pos far_host))
     else vx (pos far_host)) /\
  vz (get_vec (normalise far_host moveto_cmd) "_endpos") =
    (if truthy (JNum (4 - vz (pos far_host))) then vz (pos far_host) + (4 - vz (pos far_host))
     else vz (pos far_host)) /\
  vy (get_vec (normalise far_host moveto_cmd) "_endpos") = vy (pos far_host) /\
  get (normalise far_host moveto_cmd) "_endrotate" = JNum (rot_y far_host + 0).
Proof. apply (normalise_moveto_endpos far_host moveto_cmd (mkvec 3 0 4)). reflexivity. Defined.

Lemma setPosition_live_in_box_witness :
  (0 <= vx (pos (setPosition_live unit_box far_host)) <= 1) /\
  (0 <= vy (pos (setPosition_live unit_box far_host)) <= 1) /\
  (0 <= vz (pos (setPosition_live unit_box far_host)) <= 1).
Proof. apply setPosition_live_in_box; try reflexivity; close_concrete. Defined.

Lemma tick_idle_noop_witness :
  tick 16 (idle_with (Some ∅) []) = idle_with (Some ∅) [] /\
  tick 16 (target (Some (mkhost vzero 0 vzero vzero [7%nat] false)) (idle_with None [cmd []]))
    = target (Some (mkhost vzero 0 vzero vzero [7%nat] false)) (idle_with None [cmd []]).
Proof.
  split; apply tick_idle_noop; try reflexivity.
  - left. reflexivity.
  - right. eexists. split; reflexivity.
Defined.

Lemma tick_activation_witness :
  let s := idle_with (Some ∅) [cmd []; move_x2] in
  let fin := Qle_bool (norm_duration (cmd [])) (0 + 16) in
  c_queue (tick 16 s) = [move_x2] /\
  (c_action (tick 16 s) = None <-> fin = true) /\
  exists t', c_target (tick 16 s) = Some t' /\
    velocity t' = vzero /\ acceleration t' = vzero /\
    forces t' = remove_first (c_gravity s) (forces origin_host) ++ (if fin then [c_gravity s] else []).
Proof. intros s fin. apply tick_activation; reflexivity. Defined.

Lemma tick_completion_witness :
  c_action (tick 1000 running_state) = None /\
  c_queue (tick 1000 running_state) = c_queue running_state /\
  exists t', c_target (tick 1000 running_state) = Some t' /\
    rot_y t' = rot_y origin_host + 0 /\ velocity t' = vzero /\ acceleration t' = vzero /\
    forces t' = forces (suspendPhysics 7 origin_host) ++ [c_gravity running_state] /\
    resting_y t' = resting_y (suspendPhysics 7 origin_host) /\
    pos t' = pos (setPosition_to (c_bounds running_state) (pos origin_host)
                    (suspendPhysics 7 origin_host)) /\
    (bounds_admit (c_bounds running_state) (pos origin_host) ->
     pos t' = pos (suspendPhysics 7 origin_host)).
Proof.
  apply (tick_completion 1000 running_state (normalise origin_host (cmd []))
           (suspendPhysics 7 origin_host) (pos origin_host) (rot_y origin_host + 0));
    reflexivity.
Defined.

Lemma ticks_linear_witness :
  exists t' a', c_target (ticks [1; 2] slid_state) = Some t' /\
    c_action (ticks [1; 2] slid_state) = Some a' /\
    vx (pos t') == vx (pos slid_target) + 2 / 1000 * sum_q [1; 2] /\
    rot_y t' == rot_y slid_target + 0 / 1000 * sum_q [1; 2] /\
    to_num (get a' "_elapsed") == 16 + sum_q [1; 2].
Proof.
  apply (ticks_linear [1; 2] slid_state slid_target slid_action 2 0 1000 16
           (pos origin_host) (1/2));
    first [vm_compute; reflexivity | repeat constructor; close_concrete].
Defined.

Lemma write_all_appends_witness :
  let w := world_max2 in
  let m := (S (c_max_actions (w_ctl w)) - length (c_queue (w_ctl w)))%nat in
  c_queue (w_ctl (fst (write_all five_cmds w))) = c_queue (w_ctl w) ++ firstn m five_cmds /\
  numdroppedactions (fst (write_all five_cmds w)) = (numdroppedactions w + (length five_cmds - m))%nat /\
  snd (write_all five_cmds w) =
    repeat JUndef (Nat.min m (length five_cmds)) ++ repeat (JBool false) (length five_cmds - m).
Proof. intros w m. apply write_all_appends. vm_compute. lia. Defined.
